(** * Servo_Basic.ino: the servo sketch and its properties

    A shallow embedding of the Arduino sketch [Servo_Basic/Servo_Basic.ino].
    The sketch talks to the outside through three library objects: the
    servo ([servoA.write]), the clock ([delay]) and the serial port
    ([Serial.available], [Serial.parseInt], [Serial.print], [Serial.println]).
    Every call that acts on the outside is recorded, in order, in a log;
    the serial input is an abstract stream behind a small interface. *)

From Stdlib Require Import String Ascii ZArith List Bool Lia.
From Stdlib Require Import DecimalString.
Import ListNotations.
Local Open Scope Z_scope.

(** ** What the sketch takes from its build *)

(** [DEBUG] is the macro of the sketch ([#define DEBUG 1]: 0 = normal,
    1 = debug).  [INT_BITS] is the width of [int] on the board: 16 on the
    AVR boards, 32 on the ARM ones; C++ promises at least 16. *)
Class Build : Type := {
  DEBUG : Z;
  INT_BITS : Z;
  INT_BITS_min : 16 <= INT_BITS
}.

(** The sketch as published, on an Arduino Uno. *)
Definition Uno : Build :=
  {| DEBUG := 1; INT_BITS := 16; INT_BITS_min := Z.le_refl 16 |}.

(** ** Machine integers *)

(** Conversion to [int]: two's complement wrap-around on [INT_BITS] bits. *)
Definition to_int {build : Build} (z : Z) : Z :=
  (z + 2 ^ (INT_BITS - 1)) mod 2 ^ INT_BITS - 2 ^ (INT_BITS - 1).

(** The values of a [uint8_t] and of an [unsigned long]. *)
Definition uint8 (z : Z) : Prop := 0 <= z < 256.
Definition ulong (z : Z) : Prop := 0 <= z < 2 ^ 32.

(** Arduino's macro [#define abs(x) ((x)>0?(x):-(x))], on [int]. *)
Definition abs {build : Build} (x : Z) : Z :=
  if x >? 0 then x else to_int (- x).

(** ** The log of the calls that act on the outside *)

Inductive event : Type :=
| ServoWrite (angle : Z)   (* servoA.write(angle)       *)
| Delay (ms : Z)           (* delay(ms)                 *)
| Print (s : string)       (* Serial.print(F(s))        *)
| PrintNum (n : Z)         (* Serial.print(n), a number *)
| Println (s : string).    (* Serial.println(F(s))      *)

(** The angles passed to [servoA.write], in order. *)
Fixpoint writes (tr : list event) : list Z :=
  match tr with
  | [] => []
  | ServoWrite a :: tr' => a :: writes tr'
  | _ :: tr' => writes tr'
  end.

(** The pauses asked of [delay], in order. *)
Fixpoint delays (tr : list event) : list Z :=
  match tr with
  | [] => []
  | Delay ms :: tr' => ms :: delays tr'
  | _ :: tr' => delays tr'
  end.

(** What reaches the servo and the clock: the log without the serial output. *)
Fixpoint motion (tr : list event) : list event :=
  match tr with
  | [] => []
  | ServoWrite a :: tr' => ServoWrite a :: motion tr'
  | Delay ms :: tr' => Delay ms :: motion tr'
  | _ :: tr' => motion tr'
  end.

(** The serial output alone. *)
Fixpoint serial_events (tr : list event) : list event :=
  match tr with
  | [] => []
  | ServoWrite _ :: tr' => serial_events tr'
  | Delay _ :: tr' => serial_events tr'
  | e :: tr' => e :: serial_events tr'
  end.

(** The texts the sketch prints that open an error report. *)
Definition is_error_text (s : string) : bool := prefix "ERROR" s.

Fixpoint error_reports (tr : list event) : list string :=
  match tr with
  | [] => []
  | Print s :: tr' =>
      if is_error_text s then s :: error_reports tr' else error_reports tr'
  | Println s :: tr' =>
      if is_error_text s then s :: error_reports tr' else error_reports tr'
  | _ :: tr' => error_reports tr'
  end.

(** A number as [Serial.print] shows it: decimal, with a sign when negative. *)
Definition decimal (n : Z) : string := NilZero.string_of_int (Z.to_int n).

(** [println] ends the line with carriage return and line feed. *)
Definition CRLF : string :=
  String (ascii_of_nat 13) (String (ascii_of_nat 10) EmptyString).

(** The characters sent over the serial line. *)
Fixpoint serial_text (tr : list event) : string :=
  match tr with
  | [] => EmptyString
  | Print s :: tr' => s ++ serial_text tr'
  | PrintNum n :: tr' => decimal n ++ serial_text tr'
  | Println s :: tr' => s ++ CRLF ++ serial_text tr'
  | _ :: tr' => serial_text tr'
  end.

(** ** The serial input *)

(** [available s] is the value of [Serial.available()], the number of bytes
    waiting; [parseInt s] is the [long] that [Serial.parseInt()] returns
    and the stream it leaves. *)
Class SerialPort (stream : Type) : Type := {
  available : stream -> Z;
  parseInt : stream -> Z * stream
}.

(** A port whose input is a queue of integer tokens with nothing between
    them (the Serial Monitor's "No Line Ending" setting): each read takes
    one token; a read of the empty queue times out and yields 0. *)
Definition token_queue : Type := list Z.

#[export] Instance TokenPort : SerialPort token_queue := {|
  available q := Z.of_nat (List.length q);
  parseInt q := match q with
                | [] => (0, [])
                | v :: q' => (v, q')
                end
|}.

(** ** The sketch *)

Section Sketch.

Context {stream : Type} {port : SerialPort stream} {build : Build}.

(** The outside as the sketch sees it: the serial input still to come and
    the log of what it did so far (oldest first). *)
Record world : Type := World { serial_in : stream; log : list event }.

(** [logged w tr]: the world [w] after the calls [tr]. *)
Definition logged (w : world) (tr : list event) : world :=
  {| serial_in := serial_in w; log := log w ++ tr |}.

(** A procedure changes the world and returns a value, or runs out of
    fuel ([None]); the loops consume one unit of fuel per test of their
    condition. *)
Definition io (A : Type) : Type := world -> option A * world.

Definition ret {A : Type} (a : A) : io A := fun w => (Some a, w).

Definition bind {A B : Type} (m : io A) (k : A -> io B) : io B :=
  fun w => match m w with
           | (Some a, w') => k a w'
           | (None, w') => (None, w')
           end.

Definition out_of_fuel {A : Type} : io A := fun w => (None, w).

Notation "x <- m ;; k" := (bind m (fun x => k))
  (at level 61, m at next level, right associativity).
Notation "m ;; k" := (bind m (fun _ => k))
  (at level 61, right associativity).

Definition emit (e : event) : io unit := fun w => (Some tt, logged w [e]).

Definition servoA_write (angle : Z) : io unit := emit (ServoWrite angle).
Definition delay (ms : Z) : io unit := emit (Delay ms).
Definition Serial_print (s : string) : io unit := emit (Print s).
Definition Serial_print_num (n : Z) : io unit := emit (PrintNum n).
Definition Serial_println (s : string) : io unit := emit (Println s).

Definition Serial_available : io Z := fun w => (Some (available (serial_in w)), w).

Definition Serial_parseInt : io Z :=
  fun w => let (v, s') := parseInt (serial_in w) in
           (Some v, {| serial_in := s'; log := log w |}).

(** [if (DEBUG) { body }] *)
Definition if_DEBUG (body : io unit) : io unit :=
  if DEBUG =? 0 then ret tt else body.

(** [basicOperations()] *)
Definition basicOperations : io unit :=
  servoA_write 90 ;;
  delay 5000 ;;
  servoA_write 0 ;;
  delay 5000 ;;
  servoA_write 90 ;;
  delay 5000 ;;
  servoA_write 180 ;;
  delay 5000.

(** [userInputOperations()]: one unit of fuel per test of
    [Serial.available()]. *)
Fixpoint userInputOperations (fuel : nat) : io unit :=
  match fuel with
  | O => out_of_fuel
  | S fuel' =>
      n <- Serial_available ;;
      if n =? 0 then ret tt
      else
        v <- Serial_parseInt ;;
        let angle := to_int v in
        if (angle <? 0) || (angle >? 180) then
          Serial_print "ERROR: The angle value of " ;;
          Serial_print_num angle ;;
          Serial_println " is out of range."
        else
          if_DEBUG (Serial_print "Setting angle to " ;;
                    Serial_print_num angle ;;
                    Serial_println " degrees.") ;;
          servoA_write angle ;;
          userInputOperations fuel'
  end.

(** The two [for] loops of [servoSweep], entered at the test of their
    condition with [int angle] as it stands. *)
Fixpoint servoSweep_increasing (fuel : nat) (angle stopAngle stepAngle stepTime : Z)
  : io unit :=
  match fuel with
  | O => out_of_fuel
  | S fuel' =>
      if angle <=? stopAngle then
        if_DEBUG (Serial_print "Setting angle to " ;;
                  Serial_print_num angle ;;
                  Serial_println " degrees.") ;;
        servoA_write angle ;;
        delay stepTime ;;
        servoSweep_increasing fuel' (to_int (angle + stepAngle))
                              stopAngle stepAngle stepTime
      else ret tt
  end.

Fixpoint servoSweep_decreasing (fuel : nat) (angle stopAngle stepAngle stepTime : Z)
  : io unit :=
  match fuel with
  | O => out_of_fuel
  | S fuel' =>
      if angle >=? stopAngle then
        if_DEBUG (Serial_print "Setting angle to " ;;
                  Serial_print_num angle ;;
                  Serial_println " degrees.") ;;
        servoA_write angle ;;
        delay stepTime ;;
        servoSweep_decreasing fuel' (to_int (angle - stepAngle))
                              stopAngle stepAngle stepTime
      else ret tt
  end.

(** [servoSweep(startAngle, stopAngle, stepAngle, stepTime)]; the first
    three are [uint8_t], the last is [unsigned long]. *)
Definition servoSweep (fuel : nat) (startAngle stopAngle stepAngle stepTime : Z)
  : io unit :=
  if startAngle >? 180 then
    Serial_print "ERROR: The startAngle value of " ;;
    Serial_print_num startAngle ;;
    Serial_println " is out of range."
  else if stopAngle >? 180 then
    Serial_print "ERROR: The stopAngle value of " ;;
    Serial_print_num stopAngle ;;
    Serial_println " is out of range."
  else if (stepAngle <? 1) || (stepAngle >? abs (to_int (stopAngle - startAngle))) then
    Serial_print "ERROR: The stepAngle value of " ;;
    Serial_print_num stepAngle ;;
    Serial_println " is out of range."
  else
    if_DEBUG (Serial_print "Sweeping angle from " ;;
              Serial_print_num startAngle ;;
              Serial_print " to " ;;
              Serial_print_num stopAngle ;;
              Serial_print " degrees in increments of " ;;
              Serial_print_num stepAngle ;;
              Serial_print " degree(s) with a " ;;
              Serial_print_num stepTime ;;
              Serial_println " ms step time.") ;;
    if startAngle <? stopAngle then
      servoSweep_increasing fuel startAngle stopAngle stepAngle stepTime
    else
      servoSweep_decreasing fuel startAngle stopAngle stepAngle stepTime.

(** [sweepOperations()]; the defaults of [servoSweep] are [stepAngle = 1]
    and [stepTime = 15]. *)
Definition sweepOperations (fuel : nat) : io unit :=
  servoSweep fuel 0 180 1 15 ;;
  delay 5000 ;;
  servoSweep fuel 180 0 1 15 ;;
  delay 5000 ;;
  servoSweep fuel 45 135 15 1000 ;;
  delay 5000 ;;
  servoSweep fuel 180 0 45 1000 ;;
  delay 5000.

(** [loop()] as published: the user-input demonstration. *)
Definition loop (fuel : nat) : io unit := userInputOperations fuel.

End Sketch.

Arguments world stream : clear implicits.

(** ** What the procedures are expected to log *)

Section Expected.

Context {build : Build}.

(** The debug line of one step, when [DEBUG] is set. *)
Definition setting_msg (angle : Z) : list event :=
  if DEBUG =? 0 then []
  else [Print "Setting angle to "; PrintNum angle; Println " degrees."].

(** The debug line that opens a sweep, when [DEBUG] is set. *)
Definition sweeping_msg (startAngle stopAngle stepAngle stepTime : Z) : list event :=
  if DEBUG =? 0 then []
  else [Print "Sweeping angle from "; PrintNum startAngle;
        Print " to "; PrintNum stopAngle;
        Print " degrees in increments of "; PrintNum stepAngle;
        Print " degree(s) with a "; PrintNum stepTime;
        Println " ms step time."].

(** The report of a value out of range. *)
Definition out_of_range (name : string) (v : Z) : list event :=
  [Print ("ERROR: The " ++ name ++ " value of "); PrintNum v;
   Println " is out of range."].

(** One accepted command of the user: the debug line, then the write. *)
Definition accepted (angle : Z) : list event :=
  setting_msg angle ++ [ServoWrite angle].

(** One step of a sweep: the debug line, the write, the pause. *)
Definition sweep_step (stepTime angle : Z) : list event :=
  setting_msg angle ++ [ServoWrite angle; Delay stepTime].

End Expected.

(** [stepped n a d] is [a; a + d; ...; a + (n - 1) * d]. *)
Fixpoint stepped (n : nat) (a d : Z) : list Z :=
  match n with
  | O => []
  | S n' => a :: stepped n' (a + d) d
  end.

(** The number of angles a sweep visits. *)
Definition sweep_count (startAngle stopAngle stepAngle : Z) : nat :=
  Z.to_nat (Z.abs (stopAngle - startAngle) / stepAngle + 1).

(** The angles a sweep visits: from [startAngle] towards [stopAngle]. *)
Definition sweep_angles (startAngle stopAngle stepAngle : Z) : list Z :=
  stepped (sweep_count startAngle stopAngle stepAngle) startAngle
          (if startAngle <? stopAngle then stepAngle else - stepAngle).

(** The angles a servo accepts. *)
Definition angle_ok (a : Z) : Prop := 0 <= a <= 180.

(** ** Reading a batch of input *)

Section Batches.

Context {stream : Type} {port : SerialPort stream} {build : Build}.

(** [reads s vs s']: with input [s], successive tests of
    [Serial.available()] succeed and the calls of [Serial.parseInt()]
    return the values [vs], in order, leaving the input [s']. *)
Inductive reads : stream -> list Z -> stream -> Prop :=
| reads_nil (s : stream) : reads s [] s
| reads_cons (s s' s'' : stream) (v : Z) (vs : list Z) :
    available s <> 0 ->
    parseInt s = (v, s') ->
    reads s' vs s'' ->
    reads s (v :: vs) s''.

(** Every angle written so far is one a servo accepts. *)
Definition servo_safe (w : world stream) : Prop :=
  Forall angle_ok (writes (log w)).

(** A procedure that never writes an angle a servo does not accept,
    whether it returns or runs out of fuel. *)
Definition keeps_safe {A : Type} (m : io A) : Prop :=
  forall w : world stream, servo_safe w -> servo_safe (snd (m w)).

End Batches.

(** The world at power-on, with the tokens [q] typed by the user. *)
Definition power_on (q : token_queue) : world token_queue :=
  {| serial_in := q; log := [] |}.

(** The log of a sweep that passes the checks. *)
Definition sweep_log {build : Build} (startAngle stopAngle stepAngle stepTime : Z)
  : list event :=
  sweeping_msg startAngle stopAngle stepAngle stepTime
  ++ flat_map (sweep_step stepTime) (sweep_angles startAngle stopAngle stepAngle).

(** ** Further observations of a run *)

(** The time spent in [delay], in milliseconds. *)
Definition total_delay (tr : list event) : Z := fold_right Z.add 0 (delays tr).


Section Observations.

Context {stream : Type} {port : SerialPort stream} {build : Build}.

(** [unchanged obs m]: whatever the world, the procedure [m] leaves what
    [obs] sees of it as it was, whether it returns or runs out of fuel. *)
Definition unchanged {A X : Type} (obs : world stream -> X) (m : io A) : Prop :=
  forall w : world stream, obs (snd (m w)) = obs w.

(** The pauses logged so far. *)
Definition pauses (w : world stream) : list Z := delays (log w).

End Observations.

(** ** Facts about the log *)

Lemma writes_app (a b : list event) : writes (a ++ b) = writes a ++ writes b.
Proof.
  induction a as [|e a IH]; simpl; [reflexivity|].
  destruct e; simpl; rewrite IH; reflexivity.
Qed.

Lemma delays_app (a b : list event) : delays (a ++ b) = delays a ++ delays b.
Proof.
  induction a as [|e a IH]; simpl; [reflexivity|].
  destruct e; simpl; rewrite IH; reflexivity.
Qed.

Lemma motion_app (a b : list event) : motion (a ++ b) = motion a ++ motion b.
Proof.
  induction a as [|e a IH]; simpl; [reflexivity|].
  destruct e; simpl; rewrite IH; reflexivity.
Qed.

Lemma serial_events_app (a b : list event) :
  serial_events (a ++ b) = serial_events a ++ serial_events b.
Proof.
  induction a as [|e a IH]; simpl; [reflexivity|].
  destruct e; simpl; rewrite IH; reflexivity.
Qed.

Lemma error_reports_app (a b : list event) :
  error_reports (a ++ b) = error_reports a ++ error_reports b.
Proof.
  induction a as [|e a IH]; simpl; [reflexivity|].
  destruct e; simpl; try (destruct (is_error_text s); simpl); rewrite IH; reflexivity.
Qed.

Section LogFacts.

Context {build : Build}.

Lemma writes_setting_msg a : writes (setting_msg a) = [].
Proof. unfold setting_msg. destruct (DEBUG =? 0); reflexivity. Qed.

Lemma motion_setting_msg a : motion (setting_msg a) = [].
Proof. unfold setting_msg. destruct (DEBUG =? 0); reflexivity. Qed.

Lemma error_reports_setting_msg a : error_reports (setting_msg a) = [].
Proof. unfold setting_msg. destruct (DEBUG =? 0); reflexivity. Qed.

Lemma serial_events_setting_msg a : serial_events (setting_msg a) = setting_msg a.
Proof. unfold setting_msg. destruct (DEBUG =? 0); reflexivity. Qed.

Lemma writes_sweeping_msg a b s t : writes (sweeping_msg a b s t) = [].
Proof. unfold sweeping_msg. destruct (DEBUG =? 0); reflexivity. Qed.

Lemma motion_sweeping_msg a b s t : motion (sweeping_msg a b s t) = [].
Proof. unfold sweeping_msg. destruct (DEBUG =? 0); reflexivity. Qed.

Lemma error_reports_sweeping_msg a b s t : error_reports (sweeping_msg a b s t) = [].
Proof. unfold sweeping_msg. destruct (DEBUG =? 0); reflexivity. Qed.

Lemma writes_accepted a : writes (accepted a) = [a].
Proof. unfold accepted. rewrite writes_app, writes_setting_msg. reflexivity. Qed.

Lemma error_reports_accepted a : error_reports (accepted a) = [].
Proof.
  unfold accepted. rewrite error_reports_app, error_reports_setting_msg. reflexivity.
Qed.

Lemma writes_sweep_steps t (l : list Z) : writes (flat_map (sweep_step t) l) = l.
Proof.
  induction l as [|a l IH]; simpl; [reflexivity|].
  unfold sweep_step at 1.
  rewrite !writes_app, writes_setting_msg, IH. reflexivity.
Qed.

Lemma motion_sweep_steps t (l : list Z) :
  motion (flat_map (sweep_step t) l)
  = flat_map (fun a => [ServoWrite a; Delay t]) l.
Proof.
  induction l as [|a l IH]; simpl; [reflexivity|].
  unfold sweep_step at 1.
  rewrite !motion_app, motion_setting_msg, IH. reflexivity.
Qed.

Lemma error_reports_sweep_steps t (l : list Z) :
  error_reports (flat_map (sweep_step t) l) = [].
Proof.
  induction l as [|a l IH]; simpl; [reflexivity|].
  unfold sweep_step at 1.
  rewrite !error_reports_app, error_reports_setting_msg, IH. reflexivity.
Qed.

Lemma writes_accepted_all (l : list Z) : writes (flat_map accepted l) = l.
Proof.
  induction l as [|a l IH]; simpl; [reflexivity|].
  rewrite writes_app, writes_accepted, IH. reflexivity.
Qed.

Lemma error_reports_accepted_all (l : list Z) :
  error_reports (flat_map accepted l) = [].
Proof.
  induction l as [|a l IH]; simpl; [reflexivity|].
  rewrite error_reports_app, error_reports_accepted, IH. reflexivity.
Qed.

(** ** Facts about the machine integers *)

Lemma to_int_small (z : Z) : -32768 <= z <= 32767 -> to_int z = z.
Proof.
  intros Hz. unfold to_int.
  pose proof INT_BITS_min as Hmin.
  assert (Hhalf : 2 ^ 15 <= 2 ^ (INT_BITS - 1))
    by (apply Z.pow_le_mono_r; lia).
  assert (Hdouble : 2 ^ INT_BITS = 2 * 2 ^ (INT_BITS - 1)).
  { replace INT_BITS with (Z.succ (INT_BITS - 1)) at 1 by lia.
    apply Z.pow_succ_r. lia. }
  change (2 ^ 15) with 32768 in Hhalf.
  rewrite Hdouble, Z.mod_small by lia. lia.
Qed.

Lemma abs_int (x : Z) : -32767 <= x <= 32767 -> abs x = Z.abs x.
Proof.
  intros Hx. unfold abs.
  destruct (Z.gtb_spec x 0) as [Hpos|Hneg].
  - symmetry. apply Z.abs_eq. lia.
  - rewrite to_int_small by lia. symmetry. apply Z.abs_neq. lia.
Qed.

Lemma abs_difference (a b : Z) :
  uint8 a -> uint8 b -> abs (to_int (b - a)) = Z.abs (b - a).
Proof.
  unfold uint8. intros Ha Hb.
  rewrite to_int_small by lia. apply abs_int. lia.
Qed.

End LogFacts.

(** ** Facts about the stepped sequences *)

Lemma stepped_length n a d : List.length (stepped n a d) = n.
Proof.
  revert a. induction n as [|n IH]; intros a; simpl; [reflexivity|].
  rewrite IH. reflexivity.
Qed.

Lemma stepped_In n a d x :
  In x (stepped n a d) <-> exists k : nat, (k < n)%nat /\ x = a + Z.of_nat k * d.
Proof.
  revert a. induction n as [|n IH]; intros a; simpl.
  - split; [tauto|]. intros [k [Hk _]]. lia.
  - rewrite IH. split.
    + intros [Hx | [k [Hk Hx]]].
      * exists 0%nat. split; [lia|]. simpl. lia.
      * exists (S k). split; [lia|]. rewrite Nat2Z.inj_succ. lia.
    + intros [[|k] [Hk Hx]].
      * left. simpl in Hx. lia.
      * right. exists k. split; [lia|]. rewrite Nat2Z.inj_succ in Hx. lia.
Qed.

Lemma stepped_last n a d :
  last (stepped (S n) a d) 0 = a + Z.of_nat n * d.
Proof.
  revert a. induction n as [|n IH]; intros a.
  - simpl. lia.
  - change (stepped (S (S n)) a d) with (a :: stepped (S n) (a + d) d).
    change (last (a :: stepped (S n) (a + d) d) 0)
      with (last (stepped (S n) (a + d) d) 0).
    rewrite IH, Nat2Z.inj_succ. lia.
Qed.

(** ** Running the procedures *)

Section Runs.

Context {stream : Type} {port : SerialPort stream} {build : Build}.

Lemma logged_nil (w : world stream) : logged w [] = w.
Proof. destruct w as [s l]. unfold logged. simpl. rewrite app_nil_r. reflexivity. Qed.

Lemma logged_app (w : world stream) (a b : list event) :
  logged (logged w a) b = logged w (a ++ b).
Proof. unfold logged. simpl. rewrite app_assoc. reflexivity. Qed.

Lemma bind_emit {A : Type} (e : event) (k : unit -> io A) (w : world stream) :
  bind (emit e) k w = k tt (logged w [e]).
Proof. reflexivity. Qed.

(** The debug line of a step, in front of what follows it. *)
Lemma bind_setting {A : Type} (angle : Z) (k : unit -> io A) (w : world stream) :
  bind (if_DEBUG (bind (Serial_print "Setting angle to ")
                   (fun _ => bind (Serial_print_num angle)
                   (fun _ => Serial_println " degrees.")))) k w
  = k tt (logged w (setting_msg angle)).
Proof.
  unfold if_DEBUG, setting_msg, bind, Serial_print, Serial_print_num,
    Serial_println, emit, ret.
  destruct (DEBUG =? 0); simpl.
  - rewrite logged_nil. reflexivity.
  - rewrite !logged_app. reflexivity.
Qed.

(** The report of a value out of range, as the three calls print it. *)
Lemma report_run (name : string) (v : Z) (w : world stream) :
  bind (Serial_print ("ERROR: The " ++ name ++ " value of "))
    (fun _ => bind (Serial_print_num v)
    (fun _ => Serial_println " is out of range.")) w
  = (Some tt, logged w (out_of_range name v)).
Proof.
  unfold bind, Serial_print, Serial_print_num, Serial_println, emit, out_of_range.
  simpl. rewrite !logged_app. reflexivity.
Qed.

(** The increasing loop visits [n] angles when the [n]-th step is the
    first to pass [stopAngle]. *)
Lemma servoSweep_increasing_run (n : nat) :
  forall (fuel : nat) (angle stopAngle stepAngle stepTime : Z) (w : world stream),
    -32768 <= angle -> stopAngle <= 255 -> 0 <= stepAngle <= 255 ->
    (n < fuel)%nat ->
    stopAngle < angle + Z.of_nat n * stepAngle ->
    (forall k : nat, (k < n)%nat -> angle + Z.of_nat k * stepAngle <= stopAngle) ->
    servoSweep_increasing fuel angle stopAngle stepAngle stepTime w
    = (Some tt, logged w (flat_map (sweep_step stepTime) (stepped n angle stepAngle))).
Proof.
  induction n as [|n IH]; intros fuel angle stopAngle stepAngle stepTime w
    Hlo Hstop Hstep Hfuel Hpast Hin;
    (destruct fuel as [|fuel]; [lia|]); simpl.
  - destruct (Z.leb_spec angle stopAngle) as [Hle|Hgt]; [lia|].
    unfold ret. rewrite logged_nil. reflexivity.
  - assert (Hfirst : angle <= stopAngle).
    { specialize (Hin 0%nat). simpl in Hin. rewrite Z.add_0_r in Hin.
      apply Hin. lia. }
    destruct (Z.leb_spec angle stopAngle) as [Hle|Hgt]; [|lia].
    rewrite bind_setting. unfold servoA_write, delay. rewrite !bind_emit.
    rewrite to_int_small by lia.
    rewrite IH; try lia.
    + rewrite !logged_app. unfold sweep_step at 2.
      rewrite <- !app_assoc. reflexivity.
    + intros k Hk. specialize (Hin (S k)). rewrite Nat2Z.inj_succ in Hin. lia.
Qed.

(** The decreasing loop, likewise. *)
Lemma servoSweep_decreasing_run (n : nat) :
  forall (fuel : nat) (angle stopAngle stepAngle stepTime : Z) (w : world stream),
    angle <= 32767 -> -255 <= stopAngle -> 0 <= stepAngle <= 255 ->
    (n < fuel)%nat ->
    angle - Z.of_nat n * stepAngle < stopAngle ->
    (forall k : nat, (k < n)%nat -> stopAngle <= angle - Z.of_nat k * stepAngle) ->
    servoSweep_decreasing fuel angle stopAngle stepAngle stepTime w
    = (Some tt, logged w (flat_map (sweep_step stepTime) (stepped n angle (- stepAngle)))).
Proof.
  induction n as [|n IH]; intros fuel angle stopAngle stepAngle stepTime w
    Hhi Hstop Hstep Hfuel Hpast Hin;
    (destruct fuel as [|fuel]; [lia|]); simpl.
  - destruct (Z.geb_spec angle stopAngle) as [Hge|Hlt]; [lia|].
    unfold ret. rewrite logged_nil. reflexivity.
  - assert (Hfirst : stopAngle <= angle).
    { specialize (Hin 0%nat). simpl in Hin. rewrite Z.sub_0_r in Hin.
      apply Hin. lia. }
    destruct (Z.geb_spec angle stopAngle) as [Hge|Hlt]; [|lia].
    rewrite bind_setting. unfold servoA_write, delay. rewrite !bind_emit.
    rewrite to_int_small by lia.
    replace (angle - stepAngle) with (angle + - stepAngle) by lia.
    rewrite IH; try lia.
    + rewrite !logged_app. unfold sweep_step at 2.
      rewrite <- !app_assoc. reflexivity.
    + intros k Hk. specialize (Hin (S k)). rewrite Nat2Z.inj_succ in Hin. lia.
Qed.

End Runs.

(** ** Facts about the number of steps *)

Lemma sweep_count_div (d s : Z) :
  0 <= d -> 1 <= s ->
  s * (d / s) <= d < s * (d / s + 1) /\ Z.of_nat (Z.to_nat (d / s + 1)) = d / s + 1.
Proof.
  intros Hd Hs.
  assert (Hq : 0 <= d / s) by (apply Z.div_pos; lia).
  split.
  - split.
    + apply Z.mul_div_le. lia.
    + replace (d / s + 1) with (Z.succ (d / s)) by lia.
      apply Z.mul_succ_div_gt. lia.
  - apply Z2Nat.id. lia.
Qed.

Lemma sweep_count_pos (a b s : Z) :
  1 <= s -> exists n : nat, sweep_count a b s = S n
                            /\ Z.of_nat n = Z.abs (b - a) / s.
Proof.
  intros Hs. unfold sweep_count.
  assert (Hq : 0 <= Z.abs (b - a) / s) by (apply Z.div_pos; lia).
  exists (Z.to_nat (Z.abs (b - a) / s)). split.
  - rewrite Z2Nat.inj_add by lia. simpl. lia.
  - apply Z2Nat.id. exact Hq.
Qed.

Section SweepRuns.

Context {stream : Type} {port : SerialPort stream} {build : Build}.

(** The debug line that opens a sweep, in front of what follows it. *)
Lemma bind_sweeping {A : Type} (a b s t : Z) (k : unit -> io A) (w : world stream) :
  bind (if_DEBUG (bind (Serial_print "Sweeping angle from ")
                   (fun _ => bind (Serial_print_num a)
                   (fun _ => bind (Serial_print " to ")
                   (fun _ => bind (Serial_print_num b)
                   (fun _ => bind (Serial_print " degrees in increments of ")
                   (fun _ => bind (Serial_print_num s)
                   (fun _ => bind (Serial_print " degree(s) with a ")
                   (fun _ => bind (Serial_print_num t)
                   (fun _ => Serial_println " ms step time.")))))))))) k w
  = k tt (logged w (sweeping_msg a b s t)).
Proof.
  unfold if_DEBUG, sweeping_msg, bind, Serial_print, Serial_print_num,
    Serial_println, emit, ret.
  destruct (DEBUG =? 0); simpl.
  - rewrite logged_nil. reflexivity.
  - rewrite !logged_app. reflexivity.
Qed.

(** A call that passes the three checks runs the whole sweep. *)
Lemma servoSweep_valid_run (fuel : nat) (a b s t : Z) (w : world stream) :
  uint8 a -> uint8 b -> a <= 180 -> b <= 180 ->
  1 <= s <= Z.abs (b - a) ->
  (sweep_count a b s < fuel)%nat ->
  servoSweep fuel a b s t w = (Some tt, logged w (sweep_log a b s t)).
Proof.
  unfold uint8. intros Ha Hb Ha180 Hb180 Hs Hfuel.
  unfold servoSweep, sweep_log, sweep_angles.
  destruct (Z.gtb_spec a 180) as [Hbad|_]; [lia|].
  destruct (Z.gtb_spec b 180) as [Hbad|_]; [lia|].
  rewrite abs_difference by (unfold uint8; lia).
  destruct (Z.ltb_spec s 1) as [Hbad|_]; [lia|].
  destruct (Z.gtb_spec s (Z.abs (b - a))) as [Hbad|_]; [lia|].
  cbn [orb].
  rewrite bind_sweeping. cbv beta.
  destruct (sweep_count_div (Z.abs (b - a)) s) as [[Hq1 Hq2] Hn]; [lia|lia|].
  fold (sweep_count a b s) in Hn.
  destruct (Z.ltb_spec a b) as [Hab|Hba].
  - rewrite (servoSweep_increasing_run (sweep_count a b s)); try lia.
    + rewrite logged_app. reflexivity.
    + intros k Hk. rewrite Z.abs_eq in * by lia. nia.
  - rewrite (servoSweep_decreasing_run (sweep_count a b s)); try lia.
    + rewrite logged_app. reflexivity.
    + intros k Hk. rewrite Z.abs_neq in * by lia. nia.
Qed.

(** A call that fails a check prints one report and does nothing else. *)
Lemma servoSweep_startAngle_report (fuel : nat) (a b s t : Z) (w : world stream) :
  180 < a ->
  servoSweep fuel a b s t w = (Some tt, logged w (out_of_range "startAngle" a)).
Proof.
  intros Ha. unfold servoSweep.
  destruct (Z.gtb_spec a 180) as [_|Hok]; [|lia].
  apply (report_run "startAngle").
Qed.

Lemma servoSweep_stopAngle_report (fuel : nat) (a b s t : Z) (w : world stream) :
  a <= 180 -> 180 < b ->
  servoSweep fuel a b s t w = (Some tt, logged w (out_of_range "stopAngle" b)).
Proof.
  intros Ha Hb. unfold servoSweep.
  destruct (Z.gtb_spec a 180) as [Hbad|_]; [lia|].
  destruct (Z.gtb_spec b 180) as [_|Hok]; [|lia].
  apply (report_run "stopAngle").
Qed.

Lemma servoSweep_stepAngle_report (fuel : nat) (a b s t : Z) (w : world stream) :
  uint8 a -> uint8 b -> a <= 180 -> b <= 180 ->
  s < 1 \/ Z.abs (b - a) < s ->
  servoSweep fuel a b s t w = (Some tt, logged w (out_of_range "stepAngle" s)).
Proof.
  intros Ha Hb Ha180 Hb180 Hs. unfold servoSweep.
  destruct (Z.gtb_spec a 180) as [Hbad|_]; [lia|].
  destruct (Z.gtb_spec b 180) as [Hbad|_]; [lia|].
  rewrite abs_difference by assumption.
  destruct (Z.ltb_spec s 1) as [_|Hs1]; cbn [orb].
  - apply (report_run "stepAngle").
  - destruct (Z.gtb_spec s (Z.abs (b - a))) as [_|Hs2]; [|lia].
    apply (report_run "stepAngle").
Qed.

End SweepRuns.

(** ** The user-input handler, one token at a time *)

Section InputRuns.

Context {stream : Type} {port : SerialPort stream} {build : Build}.

(** No input waiting: the handler returns at once. *)
Lemma userInputOperations_idle (fuel : nat) (w : world stream) :
  available (serial_in w) = 0 ->
  userInputOperations (S fuel) w = (Some tt, w).
Proof.
  intros Hav. simpl. unfold bind, Serial_available. rewrite Hav. reflexivity.
Qed.

(** An angle in range: the debug line, the write, and back to the test
    of [Serial.available()]. *)
Lemma userInputOperations_accept (fuel : nat) (w : world stream) (v : Z) (s' : stream) :
  available (serial_in w) <> 0 ->
  parseInt (serial_in w) = (v, s') ->
  angle_ok (to_int v) ->
  userInputOperations (S fuel) w
  = userInputOperations fuel
      {| serial_in := s'; log := log w ++ accepted (to_int v) |}.
Proof.
  unfold angle_ok. intros Hav Hparse Hok.
  change (userInputOperations (S fuel) w)
    with (bind Serial_available (fun n =>
            if n =? 0 then ret tt
            else bind Serial_parseInt (fun v =>
              if (to_int v <? 0) || (to_int v >? 180) then
                bind (Serial_print "ERROR: The angle value of ")
                  (fun _ => bind (Serial_print_num (to_int v))
                  (fun _ => Serial_println " is out of range."))
              else
                bind (if_DEBUG (bind (Serial_print "Setting angle to ")
                         (fun _ => bind (Serial_print_num (to_int v))
                         (fun _ => Serial_println " degrees."))))
                  (fun _ => bind (servoA_write (to_int v))
                  (fun _ => userInputOperations fuel)))) w).
  unfold bind at 1. unfold Serial_available.
  destruct (Z.eqb_spec (available (serial_in w)) 0) as [Hbad|_]; [contradiction|].
  unfold bind at 1. unfold Serial_parseInt. rewrite Hparse.
  destruct (Z.ltb_spec (to_int v) 0) as [Hbad|_]; [lia|].
  destruct (Z.gtb_spec (to_int v) 180) as [Hbad|_]; [lia|].
  cbn [orb].
  rewrite bind_setting. unfold servoA_write. rewrite bind_emit, logged_app.
  reflexivity.
Qed.

(** An angle out of range: the report, and the handler returns. *)
Lemma userInputOperations_reject (fuel : nat) (w : world stream) (v : Z) (s' : stream) :
  available (serial_in w) <> 0 ->
  parseInt (serial_in w) = (v, s') ->
  to_int v < 0 \/ 180 < to_int v ->
  userInputOperations (S fuel) w
  = (Some tt, {| serial_in := s';
                 log := log w ++ out_of_range "angle" (to_int v) |}).
Proof.
  intros Hav Hparse Hbad.
  change (userInputOperations (S fuel) w)
    with (bind Serial_available (fun n =>
            if n =? 0 then ret tt
            else bind Serial_parseInt (fun v =>
              if (to_int v <? 0) || (to_int v >? 180) then
                bind (Serial_print "ERROR: The angle value of ")
                  (fun _ => bind (Serial_print_num (to_int v))
                  (fun _ => Serial_println " is out of range."))
              else
                bind (if_DEBUG (bind (Serial_print "Setting angle to ")
                         (fun _ => bind (Serial_print_num (to_int v))
                         (fun _ => Serial_println " degrees."))))
                  (fun _ => bind (servoA_write (to_int v))
                  (fun _ => userInputOperations fuel)))) w).
  unfold bind at 1. unfold Serial_available.
  destruct (Z.eqb_spec (available (serial_in w)) 0) as [Hzero|_]; [contradiction|].
  unfold bind at 1. unfold Serial_parseInt. rewrite Hparse.
  assert (Htest : (to_int v <? 0) || (to_int v >? 180) = true).
  { apply orb_true_iff. destruct Hbad as [Hneg|Hbig].
    - left. apply Z.ltb_lt. exact Hneg.
    - right. apply Z.gtb_lt. exact Hbig. }
  rewrite Htest.
  exact (report_run "angle" (to_int v) {| serial_in := s'; log := log w |}).
Qed.

(** A run of angles in range: each is written in turn, and the handler is
    back at the test of [Serial.available()]. *)
Lemma userInputOperations_batch (vs : list Z) :
  forall (fuel : nat) (w : world stream) (s1 : stream),
    reads (serial_in w) vs s1 ->
    Forall angle_ok (map to_int vs) ->
    userInputOperations (List.length vs + fuel) w
    = userInputOperations fuel
        {| serial_in := s1; log := log w ++ flat_map accepted (map to_int vs) |}.
Proof.
  induction vs as [|v vs IH]; intros fuel w s1 Hreads Hok.
  - inversion Hreads; subst. simpl. rewrite app_nil_r.
    destruct w; reflexivity.
  - inversion Hreads as [|s s' s'' v' vs' Hav Hparse Hrest]; subst.
    simpl map in Hok. inversion Hok as [|x l Hv Hvs]; subst.
    change (List.length (v :: vs) + fuel)%nat with (S (List.length vs + fuel)).
    rewrite (userInputOperations_accept _ w v s' Hav Hparse Hv).
    rewrite (IH fuel _ s1); [|exact Hrest|exact Hvs].
    simpl. rewrite <- app_assoc. reflexivity.
Qed.

End InputRuns.

(** ** Only accepted angles reach the servo *)

Create HintDb safe.

Section Safety.

Context {stream : Type} {port : SerialPort stream} {build : Build}.

Lemma keeps_safe_ret {A : Type} (a : A) : keeps_safe (stream := stream) (ret a).
Proof. intros w Hw. exact Hw. Qed.

Lemma keeps_safe_out_of_fuel {A : Type} :
  keeps_safe (stream := stream) (@out_of_fuel stream A).
Proof. intros w Hw. exact Hw. Qed.

Lemma keeps_safe_bind {A B : Type} (m : io A) (k : A -> io B) :
  keeps_safe (stream := stream) m -> (forall a, keeps_safe (k a)) ->
  keeps_safe (bind m k).
Proof.
  intros Hm Hk w Hw. unfold bind.
  specialize (Hm w Hw).
  destruct (m w) as [[a|] w']; simpl in *.
  - apply Hk. exact Hm.
  - exact Hm.
Qed.

Lemma keeps_safe_emit (e : event) :
  Forall angle_ok (writes [e]) -> keeps_safe (stream := stream) (emit e).
Proof.
  intros He w Hw. unfold servo_safe, emit in *. simpl.
  rewrite writes_app. apply Forall_app. split; assumption.
Qed.

Lemma keeps_safe_write (angle : Z) :
  angle_ok angle -> keeps_safe (stream := stream) (servoA_write angle).
Proof.
  intros Hok. apply keeps_safe_emit. simpl. constructor; [exact Hok|constructor].
Qed.

Lemma keeps_safe_delay (ms : Z) : keeps_safe (stream := stream) (delay ms).
Proof. apply keeps_safe_emit. constructor. Qed.

Lemma keeps_safe_print (s : string) : keeps_safe (stream := stream) (Serial_print s).
Proof. apply keeps_safe_emit. constructor. Qed.

Lemma keeps_safe_print_num (n : Z) :
  keeps_safe (stream := stream) (Serial_print_num n).
Proof. apply keeps_safe_emit. constructor. Qed.

Lemma keeps_safe_println (s : string) :
  keeps_safe (stream := stream) (Serial_println s).
Proof. apply keeps_safe_emit. constructor. Qed.

Lemma keeps_safe_available : keeps_safe (stream := stream) Serial_available.
Proof. intros w Hw. exact Hw. Qed.

Lemma keeps_safe_parseInt : keeps_safe (stream := stream) Serial_parseInt.
Proof.
  intros w Hw. unfold Serial_parseInt.
  destruct (parseInt (serial_in w)) as [v s']. exact Hw.
Qed.

Lemma keeps_safe_if_DEBUG (body : io unit) :
  keeps_safe (stream := stream) body -> keeps_safe (if_DEBUG body).
Proof.
  intros Hbody. unfold if_DEBUG.
  destruct (DEBUG =? 0); [apply keeps_safe_ret|exact Hbody].
Qed.

Hint Resolve keeps_safe_ret keeps_safe_out_of_fuel keeps_safe_delay
  keeps_safe_print keeps_safe_print_num keeps_safe_println
  keeps_safe_available keeps_safe_parseInt : safe.

(** Takes a sequence of calls apart, one [bind] at a time. *)
Ltac safe_steps :=
  repeat first
    [ apply keeps_safe_bind; [|intros ?]
    | apply keeps_safe_if_DEBUG
    | solve [auto with safe] ].

Lemma basicOperations_safe : keeps_safe (stream := stream) basicOperations.
Proof.
  unfold basicOperations. safe_steps;
    apply keeps_safe_write; unfold angle_ok; lia.
Qed.

Lemma userInputOperations_safe (fuel : nat) :
  keeps_safe (stream := stream) (userInputOperations fuel).
Proof.
  induction fuel as [|fuel IH]; simpl; [auto with safe|].
  apply keeps_safe_bind; [auto with safe|]. intros n.
  destruct (n =? 0); [auto with safe|].
  apply keeps_safe_bind; [auto with safe|]. intros v.
  destruct (Z.ltb_spec (to_int v) 0) as [Hneg|Hpos]; cbn [orb].
  - safe_steps.
  - destruct (Z.gtb_spec (to_int v) 180) as [Hbig|Hsmall].
    + safe_steps.
    + safe_steps. apply keeps_safe_write. unfold angle_ok. lia.
Qed.

Lemma servoSweep_increasing_safe (fuel : nat) :
  forall angle stopAngle stepAngle stepTime : Z,
    0 <= angle -> stopAngle <= 180 -> 0 <= stepAngle <= 255 ->
    keeps_safe (stream := stream)
      (servoSweep_increasing fuel angle stopAngle stepAngle stepTime).
Proof.
  induction fuel as [|fuel IH]; intros angle stopAngle stepAngle stepTime
    Hlo Hstop Hstep; simpl; [auto with safe|].
  destruct (Z.leb_spec angle stopAngle) as [Hle|Hgt]; [|auto with safe].
  safe_steps.
  - apply keeps_safe_write. unfold angle_ok. lia.
  - rewrite to_int_small by lia. apply IH; lia.
Qed.

Lemma servoSweep_decreasing_safe (fuel : nat) :
  forall angle stopAngle stepAngle stepTime : Z,
    angle <= 180 -> 0 <= stopAngle -> 0 <= stepAngle <= 255 ->
    keeps_safe (stream := stream)
      (servoSweep_decreasing fuel angle stopAngle stepAngle stepTime).
Proof.
  induction fuel as [|fuel IH]; intros angle stopAngle stepAngle stepTime
    Hhi Hstop Hstep; simpl; [auto with safe|].
  destruct (Z.geb_spec angle stopAngle) as [Hge|Hlt]; [|auto with safe].
  safe_steps.
  - apply keeps_safe_write. unfold angle_ok. lia.
  - rewrite to_int_small by lia. apply IH; lia.
Qed.

Lemma servoSweep_safe (fuel : nat) (a b s t : Z) :
  uint8 a -> uint8 b ->
  keeps_safe (stream := stream) (servoSweep fuel a b s t).
Proof.
  unfold uint8. intros Ha Hb. unfold servoSweep.
  destruct (Z.gtb_spec a 180) as [Ha180|Ha180]; [safe_steps|].
  destruct (Z.gtb_spec b 180) as [Hb180|Hb180]; [safe_steps|].
  rewrite abs_difference by (unfold uint8; lia).
  destruct (Z.ltb_spec s 1) as [Hs1|Hs1]; cbn [orb]; [safe_steps|].
  destruct (Z.gtb_spec s (Z.abs (b - a))) as [Hs2|Hs2]; [safe_steps|].
  apply keeps_safe_bind; [safe_steps|]. intros _.
  destruct (a <? b).
  - apply servoSweep_increasing_safe; lia.
  - apply servoSweep_decreasing_safe; lia.
Qed.

Lemma sweepOperations_safe (fuel : nat) :
  keeps_safe (stream := stream) (sweepOperations fuel).
Proof.
  unfold sweepOperations. safe_steps; apply servoSweep_safe; unfold uint8; lia.
Qed.

End Safety.

(** ** Facts about the log of a sweep *)

Lemma stepped_In_up (n : nat) (a s k : Z) :
  1 <= s -> 0 <= k ->
  (In (a + k * s) (stepped n a s) <-> k < Z.of_nat n).
Proof.
  intros Hs Hk. rewrite stepped_In. split.
  - intros [j [Hj Heq]]. assert (k = Z.of_nat j) by nia. lia.
  - intros Hlt. exists (Z.to_nat k). split; [lia|].
    rewrite Z2Nat.id by lia. reflexivity.
Qed.

Lemma stepped_In_down (n : nat) (a s k : Z) :
  1 <= s -> 0 <= k ->
  (In (a - k * s) (stepped n a (- s)) <-> k < Z.of_nat n).
Proof.
  intros Hs Hk. rewrite stepped_In. split.
  - intros [j [Hj Heq]]. assert (k = Z.of_nat j) by nia. lia.
  - intros Hlt. exists (Z.to_nat k). split; [lia|].
    rewrite Z2Nat.id by lia. lia.
Qed.

Section SweepLog.

Context {build : Build}.

Lemma writes_sweep_log (a b s t : Z) : writes (sweep_log a b s t) = sweep_angles a b s.
Proof.
  unfold sweep_log.
  rewrite writes_app, writes_sweeping_msg, writes_sweep_steps. reflexivity.
Qed.

Lemma motion_sweep_log (a b s t : Z) :
  motion (sweep_log a b s t)
  = flat_map (fun x => [ServoWrite x; Delay t]) (sweep_angles a b s).
Proof.
  unfold sweep_log.
  rewrite motion_app, motion_sweeping_msg, motion_sweep_steps. reflexivity.
Qed.

Lemma error_reports_sweep_log (a b s t : Z) : error_reports (sweep_log a b s t) = [].
Proof.
  unfold sweep_log.
  rewrite error_reports_app, error_reports_sweeping_msg, error_reports_sweep_steps.
  reflexivity.
Qed.

End SweepLog.

(** ** The properties of the sketch *)

(** C1. An increasing sweep: for [startAngle < stopAngle <= 180] and
    [1 <= stepAngle <= stopAngle - startAngle], [servoSweep] returns after
    writing [startAngle], [startAngle + stepAngle], ... : exactly the
    values [startAngle + k * stepAngle] that do not exceed [stopAngle], in
    increasing order, each write followed by a pause of [stepTime]
    milliseconds, and without an error report.  In particular
    [servoSweep(0, 180, 1, 15)] writes the 181 angles 0, 1, ..., 180 and
    [servoSweep(45, 135, 15, 1000)] the 7 angles 45, 60, ..., 135. *)
Theorem servoSweep_ascending {stream : Type} {port : SerialPort stream} {build : Build}
  (startAngle stopAngle stepAngle stepTime : Z) (fuel : nat) (w : world stream) :
  uint8 startAngle ->
  startAngle < stopAngle -> stopAngle <= 180 ->
  1 <= stepAngle <= stopAngle - startAngle ->
  (sweep_count startAngle stopAngle stepAngle < fuel)%nat ->
  let tr := sweep_log startAngle stopAngle stepAngle stepTime in
  servoSweep fuel startAngle stopAngle stepAngle stepTime w = (Some tt, logged w tr)
  /\ writes tr
     = stepped (sweep_count startAngle stopAngle stepAngle) startAngle stepAngle
  /\ (forall k : Z, 0 <= k ->
        (In (startAngle + k * stepAngle) (writes tr)
         <-> startAngle + k * stepAngle <= stopAngle))
  /\ Z.of_nat (List.length (writes tr)) = (stopAngle - startAngle) / stepAngle + 1
  /\ motion tr = flat_map (fun a => [ServoWrite a; Delay stepTime]) (writes tr)
  /\ error_reports tr = []
  /\ ((startAngle, stopAngle, stepAngle) = (0, 180, 1) ->
        writes tr = map Z.of_nat (seq 0 181)
        /\ List.length (writes tr) = 181%nat)
  /\ ((startAngle, stopAngle, stepAngle) = (45, 135, 15) ->
        writes tr = [45; 60; 75; 90; 105; 120; 135]
        /\ List.length (writes tr) = 7%nat).
Proof.
  unfold uint8. cbv zeta. intros Ha Hab Hb Hs Hfuel.
  assert (Hangles : sweep_angles startAngle stopAngle stepAngle
                    = stepped (sweep_count startAngle stopAngle stepAngle)
                              startAngle stepAngle).
  { unfold sweep_angles. destruct (Z.ltb_spec startAngle stopAngle); [reflexivity|lia]. }
  rewrite writes_sweep_log, motion_sweep_log, error_reports_sweep_log.
  split; [apply servoSweep_valid_run; unfold uint8; lia|].
  split; [exact Hangles|].
  split.
  { intros k Hk. rewrite Hangles, stepped_In_up by lia.
    destruct (sweep_count_div (Z.abs (stopAngle - startAngle)) stepAngle)
      as [[Hq1 Hq2] Hn]; [lia|lia|].
    fold (sweep_count startAngle stopAngle stepAngle) in Hn.
    rewrite Z.abs_eq in * by lia. split; intros Hin; nia. }
  split.
  { rewrite Hangles, stepped_length.
    destruct (sweep_count_div (Z.abs (stopAngle - startAngle)) stepAngle)
      as [_ Hn]; [lia|lia|].
    fold (sweep_count startAngle stopAngle stepAngle) in Hn.
    rewrite Z.abs_eq in Hn by lia. exact Hn. }
  split; [reflexivity|]. split; [reflexivity|].
  split; intros Hcall; injection Hcall as -> -> ->; split; reflexivity.
Qed.

(** C2. A decreasing sweep: for [stopAngle < startAngle <= 180] and
    [1 <= stepAngle <= startAngle - stopAngle], [servoSweep] returns after
    writing [startAngle], [startAngle - stepAngle], ... : exactly the
    values [startAngle - k * stepAngle] that are not below [stopAngle], in
    decreasing order, each write followed by a pause of [stepTime]
    milliseconds, and without an error report.  In particular
    [servoSweep(180, 0, 1, 15)] writes the 181 angles 180, 179, ..., 0 and
    [servoSweep(180, 0, 45, 1000)] the 5 angles 180, 135, 90, 45, 0. *)
Theorem servoSweep_descending {stream : Type} {port : SerialPort stream} {build : Build}
  (startAngle stopAngle stepAngle stepTime : Z) (fuel : nat) (w : world stream) :
  uint8 stopAngle ->
  stopAngle < startAngle -> startAngle <= 180 ->
  1 <= stepAngle <= startAngle - stopAngle ->
  (sweep_count startAngle stopAngle stepAngle < fuel)%nat ->
  let tr := sweep_log startAngle stopAngle stepAngle stepTime in
  servoSweep fuel startAngle stopAngle stepAngle stepTime w = (Some tt, logged w tr)
  /\ writes tr
     = stepped (sweep_count startAngle stopAngle stepAngle) startAngle (- stepAngle)
  /\ (forall k : Z, 0 <= k ->
        (In (startAngle - k * stepAngle) (writes tr)
         <-> stopAngle <= startAngle - k * stepAngle))
  /\ Z.of_nat (List.length (writes tr)) = (startAngle - stopAngle) / stepAngle + 1
  /\ motion tr = flat_map (fun a => [ServoWrite a; Delay stepTime]) (writes tr)
  /\ error_reports tr = []
  /\ ((startAngle, stopAngle, stepAngle) = (180, 0, 1) ->
        writes tr = map (fun k => 180 - Z.of_nat k) (seq 0 181)
        /\ List.length (writes tr) = 181%nat)
  /\ ((startAngle, stopAngle, stepAngle) = (180, 0, 45) ->
        writes tr = [180; 135; 90; 45; 0]
        /\ List.length (writes tr) = 5%nat).
Proof.
  unfold uint8. cbv zeta. intros Hb Hba Ha Hs Hfuel.
  assert (Hangles : sweep_angles startAngle stopAngle stepAngle
                    = stepped (sweep_count startAngle stopAngle stepAngle)
                              startAngle (- stepAngle)).
  { unfold sweep_angles. destruct (Z.ltb_spec startAngle stopAngle); [lia|reflexivity]. }
  rewrite writes_sweep_log, motion_sweep_log, error_reports_sweep_log.
  split; [apply servoSweep_valid_run; unfold uint8; lia|].
  split; [exact Hangles|].
  split.
  { intros k Hk. rewrite Hangles, stepped_In_down by lia.
    destruct (sweep_count_div (Z.abs (stopAngle - startAngle)) stepAngle)
      as [[Hq1 Hq2] Hn]; [lia|lia|].
    fold (sweep_count startAngle stopAngle stepAngle) in Hn.
    rewrite Z.abs_neq in * by lia. split; intros Hin; nia. }
  split.
  { rewrite Hangles, stepped_length.
    destruct (sweep_count_div (Z.abs (stopAngle - startAngle)) stepAngle)
      as [_ Hn]; [lia|lia|].
    fold (sweep_count startAngle stopAngle stepAngle) in Hn.
    rewrite Z.abs_neq in Hn by lia.
    replace (startAngle - stopAngle) with (- (stopAngle - startAngle)) by lia.
    exact Hn. }
  split; [reflexivity|]. split; [reflexivity|].
  split; intros Hcall; injection Hcall as -> -> ->; split; reflexivity.
Qed.

(** C3. A sweep that fails a check: when [startAngle > 180], or
    [stopAngle > 180], or [stepAngle < 1], or
    [stepAngle > |stopAngle - startAngle|], [servoSweep] prints one
    out-of-range report, which names a parameter that is out of range and
    shows its value, and returns: no write, no pause. *)
Theorem servoSweep_rejects {stream : Type} {port : SerialPort stream} {build : Build}
  (startAngle stopAngle stepAngle stepTime : Z) (fuel : nat) (w : world stream) :
  uint8 startAngle -> uint8 stopAngle ->
  180 < startAngle \/ 180 < stopAngle
  \/ stepAngle < 1 \/ Z.abs (stopAngle - startAngle) < stepAngle ->
  exists (name : string) (v : Z),
    servoSweep fuel startAngle stopAngle stepAngle stepTime w
    = (Some tt, logged w (out_of_range name v))
    /\ ((name = "startAngle"%string /\ v = startAngle /\ 180 < startAngle)
        \/ (name = "stopAngle"%string /\ v = stopAngle /\ 180 < stopAngle)
        \/ (name = "stepAngle"%string /\ v = stepAngle
            /\ (stepAngle < 1 \/ Z.abs (stopAngle - startAngle) < stepAngle)))
    /\ writes (out_of_range name v) = []
    /\ delays (out_of_range name v) = []
    /\ error_reports (out_of_range name v)
       = [("ERROR: The " ++ name ++ " value of ")%string]
    /\ serial_text (out_of_range name v)
       = ("ERROR: The " ++ name ++ " value of " ++ decimal v
          ++ " is out of range." ++ CRLF)%string.
Proof.
  intros Ha Hb Hbad.
  destruct (Z_lt_dec 180 startAngle) as [Ha180|Ha180].
  - exists "startAngle"%string, startAngle.
    split; [apply servoSweep_startAngle_report; exact Ha180|].
    split; [left; auto|]. repeat split.
  - destruct (Z_lt_dec 180 stopAngle) as [Hb180|Hb180].
    + exists "stopAngle"%string, stopAngle.
      split; [apply servoSweep_stopAngle_report; lia|].
      split; [right; left; auto|]. repeat split.
    + exists "stepAngle"%string, stepAngle.
      split; [apply servoSweep_stepAngle_report; try assumption; lia|].
      split; [right; right; repeat split; lia|]. repeat split.
Qed.

(** C6. No snapping: in a sweep that passes the checks and whose
    [stepAngle] does not divide [|stopAngle - startAngle|], the last angle
    written is short of [stopAngle] by the remainder, lies strictly
    between [startAngle] and [stopAngle], is the farthest value
    [startAngle +/- k * stepAngle] that does not pass [stopAngle], and
    [stopAngle] itself is never written. *)
Theorem servoSweep_stops_short {stream : Type} {port : SerialPort stream} {build : Build}
  (startAngle stopAngle stepAngle stepTime : Z) (fuel : nat) (w : world stream) :
  uint8 startAngle -> uint8 stopAngle ->
  startAngle <= 180 -> stopAngle <= 180 ->
  1 <= stepAngle <= Z.abs (stopAngle - startAngle) ->
  Z.abs (stopAngle - startAngle) mod stepAngle <> 0 ->
  (sweep_count startAngle stopAngle stepAngle < fuel)%nat ->
  let tr := sweep_log startAngle stopAngle stepAngle stepTime in
  let r := Z.abs (stopAngle - startAngle) mod stepAngle in
  let final := last (writes tr) 0 in
  servoSweep fuel startAngle stopAngle stepAngle stepTime w = (Some tt, logged w tr)
  /\ In final (writes tr)
  /\ final = (if startAngle <? stopAngle then stopAngle - r else stopAngle + r)
  /\ (startAngle < final < stopAngle \/ stopAngle < final < startAngle)
  /\ (forall k : Z, 0 <= k ->
        (startAngle + k * stepAngle <= stopAngle ->
         startAngle + k * stepAngle <= final)
        /\ (stopAngle <= startAngle - k * stepAngle ->
            final <= startAngle - k * stepAngle))
  /\ ~ In stopAngle (writes tr).
Proof.
  unfold uint8. cbv zeta. intros Ha Hb Ha180 Hb180 Hs Hrem Hfuel.
  rewrite writes_sweep_log. unfold sweep_angles.
  destruct (sweep_count_pos startAngle stopAngle stepAngle) as [n [Hcount Hn]]; [lia|].
  pose proof (Z.div_mod (Z.abs (stopAngle - startAngle)) stepAngle) as Hdm.
  pose proof (Z.mod_pos_bound (Z.abs (stopAngle - startAngle)) stepAngle) as Hr.
  set (r := Z.abs (stopAngle - startAngle) mod stepAngle) in *.
  set (q := Z.abs (stopAngle - startAngle) / stepAngle) in *.
  assert (Hsplit : Z.abs (stopAngle - startAngle) = stepAngle * q + r) by (apply Hdm; lia).
  assert (Hrange : 0 <= r < stepAngle) by (apply Hr; lia).
  clear Hdm Hr.
  rewrite Hcount, stepped_last.
  split; [apply servoSweep_valid_run; unfold uint8; lia|].
  split.
  { apply stepped_In. exists n. split; [lia|reflexivity]. }
  destruct (Z.ltb_spec startAngle stopAngle) as [Hab|Hba].
  - rewrite Z.abs_eq in Hsplit by lia.
    split; [nia|]. split; [left; nia|]. split.
    + intros k Hk. split; intros Hreach.
      * assert (Hkq : k <= q) by nia. nia.
      * nia.
    + rewrite stepped_In. intros [k [Hk Heq]].
      assert (Hmul : r = (Z.of_nat k - q) * stepAngle) by lia.
      assert (Hq : Z.of_nat k - q = 0) by nia. nia.
  - rewrite Z.abs_neq in Hsplit by lia.
    split; [nia|]. split; [right; nia|]. split.
    + intros k Hk. split; intros Hreach.
      * nia.
      * assert (Hkq : k <= q) by nia. nia.
    + rewrite stepped_In. intros [k [Hk Heq]].
      assert (Hmul : r = (Z.of_nat k - q) * stepAngle) by lia.
      assert (Hq : Z.of_nat k - q = 0) by nia. nia.
Qed.

(** C7, as the code has it: with [startAngle = stopAngle <= 180], every
    [stepAngle] fails the third check, so [servoSweep] prints the
    [stepAngle] report; with [startAngle = stopAngle > 180] the first
    check fails and the report names [startAngle].  Either way nothing is
    written to the servo. *)
Theorem servoSweep_equal_angles {stream : Type} {port : SerialPort stream} {build : Build}
  (angle stepAngle stepTime : Z) (fuel : nat) (w : world stream) :
  uint8 angle ->
  (angle <= 180 ->
   servoSweep fuel angle angle stepAngle stepTime w
   = (Some tt, logged w (out_of_range "stepAngle" stepAngle)))
  /\ (180 < angle ->
      servoSweep fuel angle angle stepAngle stepTime w
      = (Some tt, logged w (out_of_range "startAngle" angle)))
  /\ writes (log (snd (servoSweep fuel angle angle stepAngle stepTime w)))
     = writes (log w)
  /\ delays (log (snd (servoSweep fuel angle angle stepAngle stepTime w)))
     = delays (log w).
Proof.
  intros Ha.
  assert (Hlow : angle <= 180 ->
            servoSweep fuel angle angle stepAngle stepTime w
            = (Some tt, logged w (out_of_range "stepAngle" stepAngle))).
  { intros Hok. apply servoSweep_stepAngle_report; try assumption.
    rewrite Z.sub_diag. simpl. lia. }
  assert (Hhigh : 180 < angle ->
            servoSweep fuel angle angle stepAngle stepTime w
            = (Some tt, logged w (out_of_range "startAngle" angle))).
  { intros Hbig. apply servoSweep_startAngle_report. exact Hbig. }
  split; [exact Hlow|]. split; [exact Hhigh|].
  destruct (Z_le_gt_dec angle 180) as [Hok|Hbig].
  - rewrite Hlow by exact Hok. simpl.
    rewrite writes_app, delays_app. simpl. rewrite !app_nil_r. split; reflexivity.
  - rewrite Hhigh by lia. simpl.
    rewrite writes_app, delays_app. simpl. rewrite !app_nil_r. split; reflexivity.
Qed.

(** C8. [basicOperations] writes 90, 0, 90, 180 in that order, each write
    followed by a pause of 5000 milliseconds; it reads no input and
    prints nothing. *)
Theorem basicOperations_log {stream : Type} {port : SerialPort stream} {build : Build}
  (w : world stream) :
  basicOperations w
  = (Some tt, logged w [ServoWrite 90; Delay 5000; ServoWrite 0; Delay 5000;
                        ServoWrite 90; Delay 5000; ServoWrite 180; Delay 5000])
  /\ serial_in (snd (basicOperations w)) = serial_in w
  /\ serial_events [ServoWrite 90; Delay 5000; ServoWrite 0; Delay 5000;
                    ServoWrite 90; Delay 5000; ServoWrite 180; Delay 5000] = []
  /\ writes [ServoWrite 90; Delay 5000; ServoWrite 0; Delay 5000;
             ServoWrite 90; Delay 5000; ServoWrite 180; Delay 5000]
     = [90; 0; 90; 180].
Proof.
  assert (Hrun : basicOperations w
                 = (Some tt, logged w [ServoWrite 90; Delay 5000; ServoWrite 0;
                                       Delay 5000; ServoWrite 90; Delay 5000;
                                       ServoWrite 180; Delay 5000])).
  { unfold basicOperations, servoA_write, delay.
    rewrite !bind_emit. unfold emit. rewrite !logged_app. reflexivity. }
  rewrite Hrun. repeat split.
Qed.

(** C4. An angle out of range: when the handler, after any number of
    accepted angles, parses a value whose [int angle] is below 0 or above
    180, it prints exactly "ERROR: The angle value of <angle> is out of
    range.", writes nothing for it, and returns: the input is left as
    that [parseInt] left it, so nothing queued behind is parsed in this
    call. *)
Theorem userInputOperations_out_of_range
  {stream : Type} {port : SerialPort stream} {build : Build}
  (w : world stream) (vs : list Z) (s1 s2 : stream) (v : Z) (fuel : nat) :
  reads (serial_in w) vs s1 ->
  Forall angle_ok (map to_int vs) ->
  available s1 <> 0 ->
  parseInt s1 = (v, s2) ->
  to_int v < 0 \/ 180 < to_int v ->
  (List.length vs < fuel)%nat ->
  userInputOperations fuel w
  = (Some tt, {| serial_in := s2;
                 log := log w ++ flat_map accepted (map to_int vs)
                        ++ out_of_range "angle" (to_int v) |})
  /\ writes (flat_map accepted (map to_int vs) ++ out_of_range "angle" (to_int v))
     = map to_int vs
  /\ error_reports (flat_map accepted (map to_int vs)
                    ++ out_of_range "angle" (to_int v))
     = ["ERROR: The angle value of "%string]
  /\ serial_text (out_of_range "angle" (to_int v))
     = ("ERROR: The angle value of " ++ decimal (to_int v)
        ++ " is out of range." ++ CRLF)%string.
Proof.
  intros Hreads Hok Hav Hparse Hbad Hfuel.
  split; [|split; [|split]].
  - replace fuel with (List.length vs + S (fuel - S (List.length vs)))%nat by lia.
    rewrite (userInputOperations_batch vs _ w s1 Hreads Hok).
    rewrite (userInputOperations_reject _
               {| serial_in := s1; log := log w ++ flat_map accepted (map to_int vs) |}
               v s2 Hav Hparse Hbad).
    simpl. rewrite <- app_assoc. reflexivity.
  - rewrite writes_app, writes_accepted_all. simpl. apply app_nil_r.
  - rewrite error_reports_app, error_reports_accepted_all. reflexivity.
  - reflexivity.
Qed.

(** C5. Angles in range: every value the handler parses whose
    [int angle] lies in 0..180 is written to the servo, after the debug
    line "Setting angle to <angle> degrees." when [DEBUG] is set, and no
    error report is printed; the handler then is back at its test of
    [Serial.available()], and returns when no input is left. *)
Theorem userInputOperations_in_range
  {stream : Type} {port : SerialPort stream} {build : Build}
  (w : world stream) (vs : list Z) (s1 : stream) (fuel : nat) :
  reads (serial_in w) vs s1 ->
  Forall angle_ok (map to_int vs) ->
  let tr := flat_map accepted (map to_int vs) in
  userInputOperations (List.length vs + fuel) w
  = userInputOperations fuel {| serial_in := s1; log := log w ++ tr |}
  /\ (available s1 = 0 ->
      userInputOperations (List.length vs + S fuel) w
      = (Some tt, {| serial_in := s1; log := log w ++ tr |}))
  /\ writes tr = map to_int vs
  /\ error_reports tr = []
  /\ (forall angle : Z,
        accepted angle
        = (if DEBUG =? 0 then []
           else [Print "Setting angle to "; PrintNum angle; Println " degrees."])
          ++ [ServoWrite angle]).
Proof.
  cbv zeta. intros Hreads Hok.
  split; [apply userInputOperations_batch; assumption|].
  split.
  { intros Hidle.
    rewrite (userInputOperations_batch vs _ w s1 Hreads Hok).
    apply userInputOperations_idle. exact Hidle. }
  split; [apply writes_accepted_all|].
  split; [apply error_reports_accepted_all|].
  intros angle. reflexivity.
Qed.

Lemma accepted_repeat {build : Build} (angle : Z) (n : nat) :
  flat_map accepted (repeat angle n) = concat (repeat (accepted angle) n).
Proof.
  induction n as [|n IH]; simpl; [reflexivity|]. rewrite IH. reflexivity.
Qed.

(** C9. The same angle again: when the input holds the same accepted
    value [n] times, the handler logs [n] times the same block, the debug
    line of that angle and the write of that angle, whatever was logged
    before: what it does for a token depends on the token alone. *)
Theorem userInputOperations_repeated
  {stream : Type} {port : SerialPort stream} {build : Build}
  (w : world stream) (v : Z) (n : nat) (s1 : stream) (fuel : nat) :
  reads (serial_in w) (repeat v n) s1 ->
  available s1 = 0 ->
  0 <= to_int v <= 180 ->
  (n < fuel)%nat ->
  let block := accepted (to_int v) in
  userInputOperations fuel w
  = (Some tt, {| serial_in := s1; log := log w ++ concat (repeat block n) |})
  /\ writes (concat (repeat block n)) = repeat (to_int v) n
  /\ serial_events (concat (repeat block n))
     = concat (repeat (setting_msg (to_int v)) n)
  /\ error_reports (concat (repeat block n)) = [].
Proof.
  cbv zeta. intros Hreads Hidle Hok Hfuel.
  assert (Hall : Forall angle_ok (map to_int (repeat v n))).
  { rewrite map_repeat. apply Forall_forall. intros x Hx.
    apply repeat_spec in Hx. subst x. exact Hok. }
  rewrite <- accepted_repeat, <- map_repeat.
  split; [|split; [|split]].
  - replace fuel with (List.length (repeat v n) + S (fuel - S n))%nat
      by (rewrite repeat_length; lia).
    rewrite (userInputOperations_batch _ _ w s1 Hreads Hall).
    apply userInputOperations_idle. exact Hidle.
  - apply writes_accepted_all.
  - rewrite map_repeat. clear Hreads Hall.
    induction n as [|n IH]; simpl; [reflexivity|].
    rewrite serial_events_app. unfold accepted at 1.
    rewrite serial_events_app, serial_events_setting_msg. simpl.
    rewrite app_nil_r, IH by lia. reflexivity.
  - apply error_reports_accepted_all.
Qed.

(** C10. Only angles in 0..180 reach the servo: if every angle written so
    far is in that range, it still is after [basicOperations],
    [userInputOperations], [servoSweep] on any [uint8_t] arguments,
    [sweepOperations] and [loop], whether the call returns or is cut short. *)
Theorem only_accepted_angles_written
  {stream : Type} {port : SerialPort stream} {build : Build}
  (startAngle stopAngle stepAngle stepTime : Z) (fuel : nat) (w : world stream) :
  uint8 startAngle -> uint8 stopAngle -> uint8 stepAngle ->
  servo_safe w ->
  servo_safe (snd (basicOperations w))
  /\ servo_safe (snd (userInputOperations fuel w))
  /\ servo_safe (snd (servoSweep fuel startAngle stopAngle stepAngle stepTime w))
  /\ servo_safe (snd (sweepOperations fuel w))
  /\ servo_safe (snd (loop fuel w)).
Proof.
  intros Ha Hb Hs Hw.
  split; [apply basicOperations_safe; exact Hw|].
  split; [apply userInputOperations_safe; exact Hw|].
  split; [apply servoSweep_safe; assumption|].
  split; [apply sweepOperations_safe; exact Hw|].
  apply userInputOperations_safe. exact Hw.
Qed.

(** ** The properties at concrete calls, on an Arduino Uno *)

(** [servoSweep(45, 135, 15, 1000)], as [sweepOperations] calls it. *)
Lemma servoSweep_ascending_witness :
  uint8 45 /\ 45 < 135 /\ 135 <= 180 /\ 1 <= 15 <= 135 - 45
  /\ (sweep_count 45 135 15 < 8)%nat
  /\ servoSweep (build := Uno) 8 45 135 15 1000 (power_on [])
     = (Some tt, logged (power_on []) (sweep_log (build := Uno) 45 135 15 1000)).
Proof.
  assert (H1 : uint8 45) by (unfold uint8; lia).
  assert (H2 : 45 < 135) by lia.
  assert (H3 : 135 <= 180) by lia.
  assert (H4 : 1 <= 15 <= 135 - 45) by lia.
  assert (H5 : (sweep_count 45 135 15 < 8)%nat) by (vm_compute; lia).
  split; [exact H1|]. split; [exact H2|]. split; [exact H3|].
  split; [exact H4|]. split; [exact H5|].
  destruct (servoSweep_ascending (build := Uno) 45 135 15 1000 8 (power_on [])
              H1 H2 H3 H4 H5) as [Hrun _].
  exact Hrun.
Defined.

(** [servoSweep(180, 0, 45, 1000)], as [sweepOperations] calls it. *)
Lemma servoSweep_descending_witness :
  uint8 0 /\ 0 < 180 /\ 180 <= 180 /\ 1 <= 45 <= 180 - 0
  /\ (sweep_count 180 0 45 < 6)%nat
  /\ servoSweep (build := Uno) 6 180 0 45 1000 (power_on [])
     = (Some tt, logged (power_on []) (sweep_log (build := Uno) 180 0 45 1000)).
Proof.
  assert (H1 : uint8 0) by (unfold uint8; lia).
  assert (H2 : 0 < 180) by lia.
  assert (H3 : 180 <= 180) by lia.
  assert (H4 : 1 <= 45 <= 180 - 0) by lia.
  assert (H5 : (sweep_count 180 0 45 < 6)%nat) by (vm_compute; lia).
  split; [exact H1|]. split; [exact H2|]. split; [exact H3|].
  split; [exact H4|]. split; [exact H5|].
  destruct (servoSweep_descending (build := Uno) 180 0 45 1000 6 (power_on [])
              H1 H2 H3 H4 H5) as [Hrun _].
  exact Hrun.
Defined.

(** [servoSweep(200, 10, 1, 15)]: the start is out of range. *)
Lemma servoSweep_rejects_witness :
  uint8 200 /\ uint8 10
  /\ (180 < 200 \/ 180 < 10 \/ 1 < 1 \/ Z.abs (10 - 200) < 1)
  /\ exists (name : string) (v : Z),
       servoSweep (build := Uno) 1 200 10 1 15 (power_on [])
       = (Some tt, logged (power_on []) (out_of_range name v)).
Proof.
  assert (H1 : uint8 200) by (unfold uint8; lia).
  assert (H2 : uint8 10) by (unfold uint8; lia).
  assert (H3 : 180 < 200 \/ 180 < 10 \/ 1 < 1 \/ Z.abs (10 - 200) < 1)
    by (left; lia).
  split; [exact H1|]. split; [exact H2|]. split; [exact H3|].
  destruct (servoSweep_rejects (build := Uno) 200 10 1 15 1 (power_on []) H1 H2 H3)
    as [name [v [Hrun _]]].
  exists name, v. exact Hrun.
Defined.

(** The user types 90, then 200, then 30: 90 is written, 200 is reported,
    30 stays in the queue. *)
Lemma userInputOperations_out_of_range_witness :
  reads (serial_in (power_on [90; 200; 30])) [90] [200; 30]
  /\ Forall angle_ok (map (to_int (build := Uno)) [90])
  /\ available [200; 30] <> 0
  /\ parseInt [200; 30] = (200, [30])
  /\ (to_int (build := Uno) 200 < 0 \/ 180 < to_int (build := Uno) 200)
  /\ (List.length [90] < 2)%nat
  /\ userInputOperations (build := Uno) 2 (power_on [90; 200; 30])
     = (Some tt, {| serial_in := [30];
                    log := accepted (build := Uno) 90
                           ++ out_of_range "angle" 200 |}).
Proof.
  assert (H1 : reads (serial_in (power_on [90; 200; 30])) [90] [200; 30]).
  { apply (reads_cons _ [200; 30] [200; 30] 90 []).
    - simpl. lia.
    - reflexivity.
    - apply reads_nil. }
  assert (H2 : Forall angle_ok (map (to_int (build := Uno)) [90])).
  { constructor; [split; vm_compute; discriminate|constructor]. }
  assert (H3 : available [200; 30] <> 0) by (simpl; lia).
  assert (H4 : parseInt [200; 30] = (200, [30])) by reflexivity.
  assert (H5 : to_int (build := Uno) 200 < 0 \/ 180 < to_int (build := Uno) 200)
    by (right; vm_compute; reflexivity).
  assert (H6 : (List.length [90] < 2)%nat) by (simpl; lia).
  split; [exact H1|]. split; [exact H2|]. split; [exact H3|].
  split; [exact H4|]. split; [exact H5|]. split; [exact H6|].
  destruct (userInputOperations_out_of_range (build := Uno)
              (power_on [90; 200; 30]) [90] [200; 30] [30] 200 2
              H1 H2 H3 H4 H5 H6) as [Hrun _].
  exact Hrun.
Defined.

(** The user types 90, then 45: both are written and the queue is empty. *)
Lemma userInputOperations_in_range_witness :
  reads (serial_in (power_on [90; 45])) [90; 45] []
  /\ Forall angle_ok (map (to_int (build := Uno)) [90; 45])
  /\ userInputOperations (build := Uno) 3 (power_on [90; 45])
     = (Some tt, {| serial_in := [];
                    log := accepted (build := Uno) 90 ++ accepted (build := Uno) 45 |}).
Proof.
  assert (H1 : reads (serial_in (power_on [90; 45])) [90; 45] []).
  { apply (reads_cons _ [45] [] 90 [45]); [simpl; lia|reflexivity|].
    apply (reads_cons _ [] [] 45 []); [simpl; lia|reflexivity|].
    apply reads_nil. }
  assert (H2 : Forall angle_ok (map (to_int (build := Uno)) [90; 45])).
  { constructor; [split; vm_compute; discriminate|].
    constructor; [split; vm_compute; discriminate|constructor]. }
  split; [exact H1|]. split; [exact H2|].
  destruct (userInputOperations_in_range (build := Uno)
              (power_on [90; 45]) [90; 45] [] 0 H1 H2) as [_ [Hdone _]].
  exact (Hdone eq_refl).
Defined.

(** [servoSweep(10, 0, 3, 1000)] writes 10, 7, 4, 1 and stops one degree
    short of 0. *)
Lemma servoSweep_stops_short_witness :
  uint8 10 /\ uint8 0 /\ 10 <= 180 /\ 0 <= 180
  /\ 1 <= 3 <= Z.abs (0 - 10)
  /\ Z.abs (0 - 10) mod 3 <> 0
  /\ (sweep_count 10 0 3 < 5)%nat
  /\ last (writes (sweep_log (build := Uno) 10 0 3 1000)) 0 = 1
  /\ ~ In 0 (writes (sweep_log (build := Uno) 10 0 3 1000)).
Proof.
  assert (H1 : uint8 10) by (unfold uint8; lia).
  assert (H2 : uint8 0) by (unfold uint8; lia).
  assert (H3 : 10 <= 180) by lia.
  assert (H4 : 0 <= 180) by lia.
  assert (H5 : 1 <= 3 <= Z.abs (0 - 10)) by (simpl; lia).
  assert (H6 : Z.abs (0 - 10) mod 3 <> 0) by (vm_compute; discriminate).
  assert (H7 : (sweep_count 10 0 3 < 5)%nat) by (vm_compute; lia).
  split; [exact H1|]. split; [exact H2|]. split; [exact H3|].
  split; [exact H4|]. split; [exact H5|]. split; [exact H6|]. split; [exact H7|].
  destruct (servoSweep_stops_short (build := Uno) 10 0 3 1000 5 (power_on [])
              H1 H2 H3 H4 H5 H6 H7) as [_ [_ [Hlast [_ [_ Hnever]]]]].
  split; [exact Hlast|exact Hnever].
Defined.

(** C7 as stated fails at [servoSweep(200, 200, 1, 15)]: both angles are
    equal, and the report names [startAngle], not [stepAngle]. *)
Lemma servoSweep_equal_angles_above_180 :
  uint8 200 /\ uint8 1 /\ ulong 15
  /\ servoSweep (build := Uno) 1 200 200 1 15 (power_on [])
     = (Some tt, logged (power_on []) (out_of_range "startAngle" 200))
  /\ servoSweep (build := Uno) 1 200 200 1 15 (power_on [])
     <> (Some tt, logged (power_on []) (out_of_range "stepAngle" 1)).
Proof.
  split; [unfold uint8; lia|]. split; [unfold uint8; lia|].
  split; [unfold ulong; lia|].
  split; [reflexivity|].
  vm_compute. intros Heq. discriminate Heq.
Qed.

(** [servoSweep(20, 20, 1, 15)]: the step is reported. *)
Lemma servoSweep_equal_angles_witness :
  uint8 20
  /\ servoSweep (build := Uno) 1 20 20 1 15 (power_on [])
     = (Some tt, logged (power_on []) (out_of_range "stepAngle" 1)).
Proof.
  assert (H1 : uint8 20) by (unfold uint8; lia).
  split; [exact H1|].
  destruct (servoSweep_equal_angles (build := Uno) 20 1 15 1 (power_on []) H1)
    as [Hlow _].
  apply Hlow. lia.
Defined.

(** The user types 90 three times. *)
Lemma userInputOperations_repeated_witness :
  reads (serial_in (power_on [90; 90; 90])) (repeat 90 3) []
  /\ available ([] : token_queue) = 0
  /\ 0 <= to_int (build := Uno) 90 <= 180
  /\ (3 < 4)%nat
  /\ userInputOperations (build := Uno) 4 (power_on [90; 90; 90])
     = (Some tt, {| serial_in := [];
                    log := concat (repeat (accepted (build := Uno)
                                             (to_int (build := Uno) 90)) 3) |}).
Proof.
  assert (H1 : reads (serial_in (power_on [90; 90; 90])) (repeat 90 3) []).
  { apply (reads_cons _ [90; 90] [] 90 [90; 90]); [simpl; lia|reflexivity|].
    apply (reads_cons _ [90] [] 90 [90]); [simpl; lia|reflexivity|].
    apply (reads_cons _ [] [] 90 []); [simpl; lia|reflexivity|].
    apply reads_nil. }
  assert (H2 : available ([] : token_queue) = 0) by reflexivity.
  assert (H3 : 0 <= to_int (build := Uno) 90 <= 180)
    by (split; vm_compute; discriminate).
  assert (H4 : (3 < 4)%nat) by lia.
  split; [exact H1|]. split; [exact H2|]. split; [exact H3|]. split; [exact H4|].
  destruct (userInputOperations_repeated (build := Uno)
              (power_on [90; 90; 90]) 90 3 [] 4 H1 H2 H3 H4) as [Hrun _].
  exact Hrun.
Defined.

(** From power-on, with 90, 200 and 30 typed, after any of the procedures. *)
Lemma only_accepted_angles_written_witness :
  uint8 0 /\ uint8 180 /\ uint8 1
  /\ servo_safe (power_on [90; 200; 30])
  /\ servo_safe (snd (userInputOperations (build := Uno) 5 (power_on [90; 200; 30])))
  /\ servo_safe (snd (servoSweep (build := Uno) 5 0 180 1 15 (power_on [90; 200; 30]))).
Proof.
  assert (H1 : uint8 0) by (unfold uint8; lia).
  assert (H2 : uint8 180) by (unfold uint8; lia).
  assert (H3 : uint8 1) by (unfold uint8; lia).
  assert (H4 : servo_safe (power_on [90; 200; 30])) by constructor.
  split; [exact H1|]. split; [exact H2|]. split; [exact H3|]. split; [exact H4|].
  destruct (only_accepted_angles_written (build := Uno) 0 180 1 15 5
              (power_on [90; 200; 30]) H1 H2 H3 H4) as [_ [Hinput [Hsweep _]]].
  split; [exact Hinput|exact Hsweep].
Defined.

(** ** More about the sweep *)

Lemma sweep_count_bounds (a b s : Z) :
  0 <= a <= 180 -> 0 <= b <= 180 -> 1 <= s <= Z.abs (b - a) ->
  (2 <= sweep_count a b s <= 181)%nat.
Proof.
  intros Ha Hb Hs.
  destruct (sweep_count_div (Z.abs (b - a)) s) as [[Hq1 Hq2] Hn]; [lia|lia|].
  fold (sweep_count a b s) in Hn.
  assert (Hq : 0 <= Z.abs (b - a) / s) by (apply Z.div_pos; lia).
  assert (Hlow : 1 <= Z.abs (b - a) / s) by nia.
  assert (Hhigh : Z.abs (b - a) / s <= 180) by nia.
  lia.
Qed.

(** X2. [servoSweep] always returns: on any [uint8_t] angles, any step
    and any step time, 182 units of fuel are enough.  What it logs is
    either one out-of-range report and no motion at all, or a sweep
    without any report that writes at least 2 and at most 181 angles. *)
Theorem servoSweep_returns {stream : Type} {port : SerialPort stream} {build : Build}
  (startAngle stopAngle stepAngle stepTime : Z) (fuel : nat) (w : world stream) :
  uint8 startAngle -> uint8 stopAngle -> (181 < fuel)%nat ->
  exists tr : list event,
    servoSweep fuel startAngle stopAngle stepAngle stepTime w = (Some tt, logged w tr)
    /\ ((exists (name : string) (v : Z),
           tr = out_of_range name v /\ writes tr = [] /\ delays tr = [])
        \/ (tr = sweep_log startAngle stopAngle stepAngle stepTime
            /\ error_reports tr = []
            /\ (2 <= List.length (writes tr) <= 181)%nat)).
Proof.
  unfold uint8. intros Ha Hb Hfuel.
  destruct (Z_lt_dec 180 startAngle) as [Ha180|Ha180].
  { exists (out_of_range "startAngle" startAngle).
    split; [apply servoSweep_startAngle_report; exact Ha180|].
    left. exists "startAngle"%string, startAngle. repeat split. }
  destruct (Z_lt_dec 180 stopAngle) as [Hb180|Hb180].
  { exists (out_of_range "stopAngle" stopAngle).
    split; [apply servoSweep_stopAngle_report; lia|].
    left. exists "stopAngle"%string, stopAngle. repeat split. }
  destruct (Z_lt_dec stepAngle 1) as [Hs1|Hs1].
  { exists (out_of_range "stepAngle" stepAngle).
    split; [apply servoSweep_stepAngle_report; unfold uint8; lia|].
    left. exists "stepAngle"%string, stepAngle. repeat split. }
  destruct (Z_lt_dec (Z.abs (stopAngle - startAngle)) stepAngle) as [Hs2|Hs2].
  { exists (out_of_range "stepAngle" stepAngle).
    split; [apply servoSweep_stepAngle_report; unfold uint8; lia|].
    left. exists "stepAngle"%string, stepAngle. repeat split. }
  pose proof (sweep_count_bounds startAngle stopAngle stepAngle) as Hcount.
  exists (sweep_log startAngle stopAngle stepAngle stepTime).
  split; [apply servoSweep_valid_run; unfold uint8; lia|].
  right. split; [reflexivity|]. split; [apply error_reports_sweep_log|].
  rewrite writes_sweep_log. unfold sweep_angles. rewrite stepped_length.
  apply Hcount; lia.
Qed.

(** X12. The order of the checks: a [startAngle] above 180 is the one
    reported whatever the other arguments; with [startAngle] in range, a
    [stopAngle] above 180 is reported whatever the step; and with both
    angles in range every [stepAngle] above 180 is reported. *)
Theorem servoSweep_check_order {stream : Type} {port : SerialPort stream} {build : Build}
  (startAngle stopAngle stepAngle stepTime : Z) (fuel : nat) (w : world stream) :
  uint8 startAngle -> uint8 stopAngle ->
  (180 < startAngle ->
   servoSweep fuel startAngle stopAngle stepAngle stepTime w
   = (Some tt, logged w (out_of_range "startAngle" startAngle)))
  /\ (startAngle <= 180 -> 180 < stopAngle ->
      servoSweep fuel startAngle stopAngle stepAngle stepTime w
      = (Some tt, logged w (out_of_range "stopAngle" stopAngle)))
  /\ (startAngle <= 180 -> stopAngle <= 180 -> 180 < stepAngle ->
      servoSweep fuel startAngle stopAngle stepAngle stepTime w
      = (Some tt, logged w (out_of_range "stepAngle" stepAngle))).
Proof.
  intros Ha Hb. split; [|split].
  - intros Ha180. apply servoSweep_startAngle_report. exact Ha180.
  - intros Ha180 Hb180. apply servoSweep_stopAngle_report; assumption.
  - intros Ha180 Hb180 Hs. apply servoSweep_stepAngle_report; try assumption.
    unfold uint8 in *. right. lia.
Qed.

(** X3. Reaching the stop angle: in a sweep that passes the checks,
    [stopAngle] is written exactly when [stepAngle] divides
    [|stopAngle - startAngle|], and then it is the last angle written. *)
Theorem servoSweep_reaches_stop {stream : Type} {port : SerialPort stream} {build : Build}
  (startAngle stopAngle stepAngle stepTime : Z) (fuel : nat) (w : world stream) :
  uint8 startAngle -> uint8 stopAngle ->
  startAngle <= 180 -> stopAngle <= 180 ->
  1 <= stepAngle <= Z.abs (stopAngle - startAngle) ->
  (sweep_count startAngle stopAngle stepAngle < fuel)%nat ->
  let tr := sweep_log startAngle stopAngle stepAngle stepTime in
  servoSweep fuel startAngle stopAngle stepAngle stepTime w = (Some tt, logged w tr)
  /\ (In stopAngle (writes tr)
      <-> Z.abs (stopAngle - startAngle) mod stepAngle = 0)
  /\ (Z.abs (stopAngle - startAngle) mod stepAngle = 0 ->
      last (writes tr) 0 = stopAngle).
Proof.
  unfold uint8. cbv zeta. intros Ha Hb Ha180 Hb180 Hs Hfuel.
  rewrite writes_sweep_log. unfold sweep_angles.
  destruct (sweep_count_pos startAngle stopAngle stepAngle) as [n [Hcount Hn]]; [lia|].
  pose proof (Z.div_mod (Z.abs (stopAngle - startAngle)) stepAngle) as Hdm.
  pose proof (Z.mod_pos_bound (Z.abs (stopAngle - startAngle)) stepAngle) as Hr.
  set (r := Z.abs (stopAngle - startAngle) mod stepAngle) in *.
  set (q := Z.abs (stopAngle - startAngle) / stepAngle) in *.
  assert (Hsplit : Z.abs (stopAngle - startAngle) = stepAngle * q + r) by (apply Hdm; lia).
  assert (Hrange : 0 <= r < stepAngle) by (apply Hr; lia).
  clear Hdm Hr.
  rewrite Hcount, stepped_last, stepped_In.
  split; [apply servoSweep_valid_run; unfold uint8; lia|].
  destruct (Z.ltb_spec startAngle stopAngle) as [Hab|Hba].
  - rewrite Z.abs_eq in Hsplit by lia. split; [split|].
    + intros [k [Hk Heq]].
      assert (Hmul : r = (Z.of_nat k - q) * stepAngle) by lia.
      assert (Hq : Z.of_nat k - q = 0) by nia. nia.
    + intros Hzero. exists n. split; [lia|nia].
    + intros Hzero. nia.
  - rewrite Z.abs_neq in Hsplit by lia. split; [split|].
    + intros [k [Hk Heq]].
      assert (Hmul : r = (Z.of_nat k - q) * stepAngle) by lia.
      assert (Hq : Z.of_nat k - q = 0) by nia. nia.
    + intros Hzero. exists n. split; [lia|nia].
    + intros Hzero. nia.
Qed.

Lemma stepped_snoc (n : nat) (a d : Z) :
  stepped (S n) a d = stepped n a d ++ [a + Z.of_nat n * d].
Proof.
  revert a. induction n as [|n IH]; intros a.
  - simpl. f_equal. lia.
  - change (stepped (S (S n)) a d) with (a :: stepped (S n) (a + d) d).
    rewrite IH.
    change (stepped (S n) a d ++ [a + Z.of_nat (S n) * d])
      with (a :: (stepped n (a + d) d ++ [a + Z.of_nat (S n) * d])).
    rewrite Nat2Z.inj_succ. do 3 f_equal. lia.
Qed.

Lemma stepped_rev (n : nat) (a d : Z) :
  rev (stepped n a d) = stepped n (a + (Z.of_nat n - 1) * d) (- d).
Proof.
  revert a. induction n as [|n IH]; intros a; [reflexivity|].
  change (rev (stepped (S n) a d)) with (rev (stepped n (a + d) d) ++ [a]).
  rewrite IH, (stepped_snoc n (a + (Z.of_nat (S n) - 1) * d) (- d)).
  rewrite Nat2Z.inj_succ. f_equal.
  - f_equal. lia.
  - f_equal. lia.
Qed.

Lemma stepped_NoDup (n : nat) (a d : Z) : d <> 0 -> NoDup (stepped n a d).
Proof.
  intros Hd. revert a. induction n as [|n IH]; intros a; simpl; constructor.
  - rewrite stepped_In. intros [k [Hk Heq]]. nia.
  - apply IH.
Qed.

Lemma delays_sweeping_msg {build : Build} (a b s t : Z) :
  delays (sweeping_msg a b s t) = [].
Proof. unfold sweeping_msg. destruct (DEBUG =? 0); reflexivity. Qed.

Lemma delays_sweep_steps {build : Build} (t : Z) (l : list Z) :
  delays (flat_map (sweep_step t) l) = repeat t (List.length l).
Proof.
  induction l as [|a l IH]; simpl; [reflexivity|].
  unfold sweep_step at 1, setting_msg.
  rewrite delays_app, IH. destruct (DEBUG =? 0); reflexivity.
Qed.

Lemma delays_sweep_log {build : Build} (a b s t : Z) :
  delays (sweep_log a b s t) = repeat t (sweep_count a b s).
Proof.
  unfold sweep_log, sweep_angles.
  rewrite delays_app, delays_sweeping_msg, delays_sweep_steps, stepped_length.
  reflexivity.
Qed.

Lemma sum_repeat (t : Z) (n : nat) :
  fold_right Z.add 0 (repeat t n) = t * Z.of_nat n.
Proof.
  induction n as [|n IH]; [simpl; lia|].
  change (fold_right Z.add 0 (repeat t (S n)))
    with (t + fold_right Z.add 0 (repeat t n)).
  rewrite IH, Nat2Z.inj_succ. lia.
Qed.

(** X4. There and back: when [stepAngle] divides the distance, the sweep
    from [stopAngle] back to [startAngle] passes the checks too and writes
    the angles of the sweep from [startAngle] to [stopAngle] in reverse
    order. *)
Theorem servoSweep_there_and_back
  {stream : Type} {port : SerialPort stream} {build : Build}
  (startAngle stopAngle stepAngle stepTime : Z) (fuel : nat) (w w' : world stream) :
  uint8 startAngle -> uint8 stopAngle ->
  startAngle <= 180 -> stopAngle <= 180 ->
  1 <= stepAngle <= Z.abs (stopAngle - startAngle) ->
  Z.abs (stopAngle - startAngle) mod stepAngle = 0 ->
  (sweep_count startAngle stopAngle stepAngle < fuel)%nat ->
  let there := sweep_log startAngle stopAngle stepAngle stepTime in
  let back := sweep_log stopAngle startAngle stepAngle stepTime in
  servoSweep fuel startAngle stopAngle stepAngle stepTime w = (Some tt, logged w there)
  /\ servoSweep fuel stopAngle startAngle stepAngle stepTime w'
     = (Some tt, logged w' back)
  /\ writes back = rev (writes there).
Proof.
  unfold uint8. cbv zeta. intros Ha Hb Ha180 Hb180 Hs Hdiv Hfuel.
  assert (Hsym : Z.abs (startAngle - stopAngle) = Z.abs (stopAngle - startAngle)) by lia.
  assert (Hcount : sweep_count stopAngle startAngle stepAngle
                   = sweep_count startAngle stopAngle stepAngle).
  { unfold sweep_count. rewrite Hsym. reflexivity. }
  split; [apply servoSweep_valid_run; unfold uint8; lia|].
  split; [apply servoSweep_valid_run; unfold uint8; try lia; rewrite Hcount; exact Hfuel|].
  rewrite !writes_sweep_log. unfold sweep_angles. rewrite Hcount, stepped_rev.
  destruct (sweep_count_pos startAngle stopAngle stepAngle) as [n [Hn Hq]]; [lia|].
  pose proof (Z.div_mod (Z.abs (stopAngle - startAngle)) stepAngle) as Hdm.
  rewrite Hdiv, <- Hq in Hdm.
  assert (Hdist : Z.abs (stopAngle - startAngle) = stepAngle * Z.of_nat n) by lia.
  rewrite Hn, Nat2Z.inj_succ.
  destruct (Z.ltb_spec startAngle stopAngle) as [Hab|Hba];
    destruct (Z.ltb_spec stopAngle startAngle) as [Hba'|Hab']; try lia.
  - f_equal. lia.
  - f_equal; lia.
Qed.

(** X5. The time a sweep takes: a sweep that passes the checks pauses
    once per angle, [stepTime] milliseconds each time, hence
    [stepTime * (|stopAngle - startAngle| / stepAngle + 1)] milliseconds
    in all. *)
Theorem servoSweep_duration {stream : Type} {port : SerialPort stream} {build : Build}
  (startAngle stopAngle stepAngle stepTime : Z) (fuel : nat) (w : world stream) :
  uint8 startAngle -> uint8 stopAngle ->
  startAngle <= 180 -> stopAngle <= 180 ->
  1 <= stepAngle <= Z.abs (stopAngle - startAngle) ->
  (sweep_count startAngle stopAngle stepAngle < fuel)%nat ->
  let tr := sweep_log startAngle stopAngle stepAngle stepTime in
  servoSweep fuel startAngle stopAngle stepAngle stepTime w = (Some tt, logged w tr)
  /\ delays tr = repeat stepTime (List.length (writes tr))
  /\ total_delay tr
     = stepTime * (Z.abs (stopAngle - startAngle) / stepAngle + 1).
Proof.
  unfold uint8. cbv zeta. intros Ha Hb Ha180 Hb180 Hs Hfuel.
  split; [apply servoSweep_valid_run; unfold uint8; lia|].
  unfold total_delay. rewrite delays_sweep_log, writes_sweep_log.
  unfold sweep_angles. rewrite stepped_length, sum_repeat.
  split; [reflexivity|].
  destruct (sweep_count_div (Z.abs (stopAngle - startAngle)) stepAngle)
    as [_ Hn]; [lia|lia|].
  fold (sweep_count startAngle stopAngle stepAngle) in Hn.
  rewrite Hn. reflexivity.
Qed.

(** X6. A sweep stays between its end points: in a sweep that passes the
    checks the first angle written is [startAngle], every angle written
    lies between [startAngle] and [stopAngle], and no angle is written
    twice. *)
Theorem servoSweep_within_end_points
  {stream : Type} {port : SerialPort stream} {build : Build}
  (startAngle stopAngle stepAngle stepTime : Z) (fuel : nat) (w : world stream) :
  uint8 startAngle -> uint8 stopAngle ->
  startAngle <= 180 -> stopAngle <= 180 ->
  1 <= stepAngle <= Z.abs (stopAngle - startAngle) ->
  (sweep_count startAngle stopAngle stepAngle < fuel)%nat ->
  let tr := sweep_log startAngle stopAngle stepAngle stepTime in
  servoSweep fuel startAngle stopAngle stepAngle stepTime w = (Some tt, logged w tr)
  /\ hd_error (writes tr) = Some startAngle
  /\ (forall x : Z, In x (writes tr) ->
        Z.min startAngle stopAngle <= x <= Z.max startAngle stopAngle)
  /\ NoDup (writes tr).
Proof.
  unfold uint8. cbv zeta. intros Ha Hb Ha180 Hb180 Hs Hfuel.
  split; [apply servoSweep_valid_run; unfold uint8; lia|].
  rewrite writes_sweep_log. unfold sweep_angles.
  destruct (sweep_count_div (Z.abs (stopAngle - startAngle)) stepAngle)
    as [[Hq1 Hq2] Hn]; [lia|lia|].
  fold (sweep_count startAngle stopAngle stepAngle) in Hn.
  assert (Hq : 0 <= Z.abs (stopAngle - startAngle) / stepAngle)
    by (apply Z.div_pos; lia).
  split; [|split].
  - destruct (sweep_count startAngle stopAngle stepAngle); [lia|reflexivity].
  - intros x Hx. apply stepped_In in Hx. destruct Hx as [k [Hk Hx]].
    destruct (Z.ltb_spec startAngle stopAngle) as [Hab|Hba].
    + rewrite Z.abs_eq in * by lia. nia.
    + rewrite Z.abs_neq in * by lia. nia.
  - apply stepped_NoDup. destruct (startAngle <? stopAngle); lia.
Qed.

(** ** What the procedures leave alone *)

Section Unchanged.

Context {stream : Type} {port : SerialPort stream} {build : Build}.

Lemma unchanged_ret {A X : Type} (obs : world stream -> X) (a : A) :
  unchanged obs (ret a).
Proof. intros w. reflexivity. Qed.

Lemma unchanged_out_of_fuel {A X : Type} (obs : world stream -> X) :
  unchanged obs (@out_of_fuel stream A).
Proof. intros w. reflexivity. Qed.

Lemma unchanged_bind {A B X : Type} (obs : world stream -> X)
  (m : io A) (k : A -> io B) :
  unchanged obs m -> (forall a, unchanged obs (k a)) -> unchanged obs (bind m k).
Proof.
  intros Hm Hk w. unfold bind. specialize (Hm w).
  destruct (m w) as [[a|] w1]; simpl in *.
  - rewrite Hk. exact Hm.
  - exact Hm.
Qed.

Lemma unchanged_if_DEBUG {X : Type} (obs : world stream -> X) (body : io unit) :
  unchanged obs body -> unchanged obs (if_DEBUG body).
Proof.
  intros Hbody. unfold if_DEBUG.
  destruct (DEBUG =? 0); [apply unchanged_ret|exact Hbody].
Qed.

(** No call that is logged touches the serial input. *)
Lemma emit_leaves_input (e : event) : unchanged (stream := stream) serial_in (emit e).
Proof. intros w. reflexivity. Qed.

(** Only [delay] adds a pause. *)
Lemma emit_adds_no_pause (e : event) :
  delays [e] = [] -> unchanged (stream := stream) pauses (emit e).
Proof.
  intros He w. unfold pauses, emit. simpl.
  rewrite delays_app, He. apply app_nil_r.
Qed.

Lemma available_adds_no_pause : unchanged (stream := stream) pauses Serial_available.
Proof. intros w. reflexivity. Qed.

Lemma parseInt_adds_no_pause : unchanged (stream := stream) pauses Serial_parseInt.
Proof.
  intros w. unfold Serial_parseInt.
  destruct (parseInt (serial_in w)) as [v s']. reflexivity.
Qed.

(** Takes a sequence of calls apart, down to the single calls. *)
Ltac unchanged_steps :=
  repeat first
    [ apply unchanged_bind; [|intros ?]
    | apply unchanged_if_DEBUG
    | apply unchanged_ret
    | apply unchanged_out_of_fuel
    | apply emit_leaves_input
    | apply available_adds_no_pause
    | apply parseInt_adds_no_pause
    | apply emit_adds_no_pause; reflexivity ].

Lemma servoSweep_increasing_leaves_input (fuel : nat) :
  forall angle stopAngle stepAngle stepTime : Z,
    unchanged (stream := stream) serial_in
      (servoSweep_increasing fuel angle stopAngle stepAngle stepTime).
Proof.
  induction fuel as [|fuel IH]; intros angle stopAngle stepAngle stepTime; simpl.
  - apply unchanged_out_of_fuel.
  - destruct (angle <=? stopAngle); [|apply unchanged_ret].
    unfold servoA_write, delay, Serial_print, Serial_print_num, Serial_println.
    unchanged_steps. apply IH.
Qed.

Lemma servoSweep_decreasing_leaves_input (fuel : nat) :
  forall angle stopAngle stepAngle stepTime : Z,
    unchanged (stream := stream) serial_in
      (servoSweep_decreasing fuel angle stopAngle stepAngle stepTime).
Proof.
  induction fuel as [|fuel IH]; intros angle stopAngle stepAngle stepTime; simpl.
  - apply unchanged_out_of_fuel.
  - destruct (angle >=? stopAngle); [|apply unchanged_ret].
    unfold servoA_write, delay, Serial_print, Serial_print_num, Serial_println.
    unchanged_steps. apply IH.
Qed.

Lemma servoSweep_leaves_input (fuel : nat) (a b s t : Z) :
  unchanged (stream := stream) serial_in (servoSweep fuel a b s t).
Proof.
  unfold servoSweep, Serial_print, Serial_print_num, Serial_println.
  destruct (a >? 180); [unchanged_steps|].
  destruct (b >? 180); [unchanged_steps|].
  destruct ((s <? 1) || (s >? abs (to_int (b - a)))); [unchanged_steps|].
  apply unchanged_bind; [unchanged_steps|]. intros _.
  destruct (a <? b).
  - apply servoSweep_increasing_leaves_input.
  - apply servoSweep_decreasing_leaves_input.
Qed.

Lemma userInputOperations_adds_no_pause (fuel : nat) :
  unchanged (stream := stream) pauses (userInputOperations fuel).
Proof.
  induction fuel as [|fuel IH]; simpl.
  - apply unchanged_out_of_fuel.
  - apply unchanged_bind; [apply available_adds_no_pause|]. intros n.
    destruct (n =? 0); [apply unchanged_ret|].
    apply unchanged_bind; [apply parseInt_adds_no_pause|]. intros v.
    unfold servoA_write, Serial_print, Serial_print_num, Serial_println.
    destruct ((to_int v <? 0) || (to_int v >? 180)); unchanged_steps.
    exact IH.
Qed.

End Unchanged.

(** X7. The sweeps never read: whatever its arguments and however far it
    runs, [servoSweep] leaves the serial input as it found it, and so does
    [sweepOperations]: what the user types during a sweep stays queued. *)
Theorem sweeps_leave_input {stream : Type} {port : SerialPort stream} {build : Build}
  (startAngle stopAngle stepAngle stepTime : Z) (fuel : nat) (w : world stream) :
  serial_in (snd (servoSweep fuel startAngle stopAngle stepAngle stepTime w))
  = serial_in w
  /\ serial_in (snd (sweepOperations fuel w)) = serial_in w.
Proof.
  split.
  - apply servoSweep_leaves_input.
  - revert w. change (unchanged (stream := stream) serial_in (sweepOperations fuel)).
    unfold sweepOperations, delay.
    repeat first [ apply unchanged_bind; [|intros ?]
                 | apply servoSweep_leaves_input
                 | apply emit_leaves_input ].
Qed.

(** ** More about the user-input handler *)

(** X8. The shape of one call of the handler, on any port and however
    far it runs: it logs the blocks of a run of accepted angles, then at
    most one report, after which it has returned and logs nothing more.
    So a call prints at most one error report, and it never pauses. *)
Theorem userInputOperations_shape
  {stream : Type} {port : SerialPort stream} {build : Build}
  (fuel : nat) (w : world stream) :
  let r := userInputOperations fuel w in
  (exists angles : list Z,
     Forall angle_ok angles
     /\ (log (snd r) = log w ++ flat_map accepted angles
         \/ exists angle : Z,
              (angle < 0 \/ 180 < angle)
              /\ fst r = Some tt
              /\ log (snd r)
                 = log w ++ flat_map accepted angles ++ out_of_range "angle" angle))
  /\ (error_reports (log (snd r)) = error_reports (log w)
      \/ error_reports (log (snd r))
         = error_reports (log w) ++ ["ERROR: The angle value of "%string])
  /\ delays (log (snd r)) = delays (log w).
Proof.
  cbv zeta.
  assert (Hshape : forall (n : nat) (w0 : world stream),
    exists angles : list Z,
      Forall angle_ok angles
      /\ (log (snd (userInputOperations n w0)) = log w0 ++ flat_map accepted angles
          \/ exists angle : Z,
               (angle < 0 \/ 180 < angle)
               /\ fst (userInputOperations n w0) = Some tt
               /\ log (snd (userInputOperations n w0))
                  = log w0 ++ flat_map accepted angles
                    ++ out_of_range "angle" angle)).
  { induction n as [|n IH]; intros w0.
    - exists []. split; [constructor|]. left. simpl. symmetry. apply app_nil_r.
    - destruct (Z.eq_dec (available (serial_in w0)) 0) as [Hzero|Hav].
      + exists []. split; [constructor|]. left.
        rewrite userInputOperations_idle by exact Hzero.
        simpl. symmetry. apply app_nil_r.
      + destruct (parseInt (serial_in w0)) as [v s'] eqn:Hparse.
        destruct (Z_lt_dec (to_int v) 0) as [Hneg|Hpos].
        { exists []. split; [constructor|]. right. exists (to_int v).
          rewrite (userInputOperations_reject _ w0 v s' Hav Hparse) by lia.
          split; [lia|]. split; reflexivity. }
        destruct (Z_lt_dec 180 (to_int v)) as [Hbig|Hsmall].
        { exists []. split; [constructor|]. right. exists (to_int v).
          rewrite (userInputOperations_reject _ w0 v s' Hav Hparse) by lia.
          split; [lia|]. split; reflexivity. }
        assert (Hok : angle_ok (to_int v)) by (unfold angle_ok; lia).
        rewrite (userInputOperations_accept _ w0 v s' Hav Hparse Hok).
        destruct (IH {| serial_in := s'; log := log w0 ++ accepted (to_int v) |})
          as [angles [Hall Hlog]].
        exists (to_int v :: angles). split; [constructor; assumption|].
        simpl in Hlog. simpl flat_map.
        destruct Hlog as [Hlog|[angle [Hbad [Hret Hlog]]]].
        * left. rewrite Hlog, <- !app_assoc. reflexivity.
        * right. exists angle. split; [exact Hbad|]. split; [exact Hret|].
          rewrite Hlog, <- !app_assoc. reflexivity. }
  split; [apply Hshape|]. split.
  - destruct (Hshape fuel w) as [angles [_ [Hlog|[angle [_ [_ Hlog]]]]]];
      rewrite Hlog, !error_reports_app, error_reports_accepted_all.
    + left. apply app_nil_r.
    + right. reflexivity.
  - apply (userInputOperations_adds_no_pause fuel w).
Qed.

Section TokenQueues.

Context {build : Build}.

(** On a token queue the tokens in front are read one after the other. *)
Lemma reads_tokens (vs rest : token_queue) : reads (vs ++ rest) vs rest.
Proof.
  induction vs as [|v vs IH]; simpl; [apply reads_nil|].
  apply (reads_cons _ (vs ++ rest) rest v vs).
  - simpl. lia.
  - reflexivity.
  - exact IH.
Qed.

(** A queue is accepted as a whole, or has a first token that is not. *)
Lemma first_rejected (q : token_queue) :
  Forall angle_ok (map to_int q)
  \/ exists (good : list Z) (bad : Z) (rest : list Z),
       q = good ++ bad :: rest
       /\ Forall angle_ok (map to_int good)
       /\ (to_int bad < 0 \/ 180 < to_int bad).
Proof.
  induction q as [|v q IH]; [left; constructor|].
  destruct (Z_lt_dec (to_int v) 0) as [Hneg|Hpos].
  { right. exists [], v, q. split; [reflexivity|]. split; [constructor|lia]. }
  destruct (Z_lt_dec 180 (to_int v)) as [Hbig|Hsmall].
  { right. exists [], v, q. split; [reflexivity|]. split; [constructor|lia]. }
  assert (Hok : angle_ok (to_int v)) by (unfold angle_ok; lia).
  destruct IH as [Hall|[good [bad [rest [Hq [Hgood Hbad]]]]]].
  - left. simpl. constructor; assumption.
  - right. exists (v :: good), bad, rest. subst q.
    split; [reflexivity|]. split; [simpl; constructor; assumption|exact Hbad].
Qed.

End TokenQueues.

(** X9. On a finite queue of tokens the handler always returns, with one
    unit of fuel more than there are tokens.  Either every token was
    accepted: all are written, in order, nothing is reported and the queue
    is empty; or it stopped at the first token out of range: the tokens
    before it are written, it is reported, and the tokens behind it are
    still queued. *)
Theorem userInputOperations_finite_queue {build : Build}
  (q : token_queue) (l : list event) (fuel : nat) :
  (List.length q < fuel)%nat ->
  exists (good rest : list Z) (tr : list event),
    userInputOperations fuel {| serial_in := q; log := l |}
    = (Some tt, {| serial_in := rest; log := l ++ tr |})
    /\ Forall angle_ok (map to_int good)
    /\ writes tr = map to_int good
    /\ ((q = good /\ rest = [] /\ error_reports tr = [])
        \/ exists bad : Z,
             q = good ++ bad :: rest
             /\ (to_int bad < 0 \/ 180 < to_int bad)
             /\ error_reports tr = ["ERROR: The angle value of "%string]).
Proof.
  intros Hfuel.
  destruct (first_rejected q) as [Hall|[good [bad [rest [Hq [Hgood Hbad]]]]]].
  - exists q, [], (flat_map accepted (map to_int q)).
    split.
    { replace fuel with (List.length q + S (fuel - S (List.length q)))%nat by lia.
      rewrite (userInputOperations_batch q _ {| serial_in := q; log := l |} []).
      - apply userInputOperations_idle. reflexivity.
      - simpl. rewrite <- (app_nil_r q) at 1. apply reads_tokens.
      - exact Hall. }
    split; [exact Hall|]. split; [apply writes_accepted_all|].
    left. split; [reflexivity|]. split; [reflexivity|].
    apply error_reports_accepted_all.
  - exists good, rest,
      (flat_map accepted (map to_int good) ++ out_of_range "angle" (to_int bad)).
    assert (Hlen : (List.length good < fuel)%nat).
    { subst q. rewrite length_app in Hfuel. simpl in Hfuel. lia. }
    split.
    { replace fuel with (List.length good + S (fuel - S (List.length good)))%nat by lia.
      rewrite (userInputOperations_batch good _ {| serial_in := q; log := l |}
                 (bad :: rest)).
      - rewrite (userInputOperations_reject _
                   {| serial_in := bad :: rest;
                      log := l ++ flat_map accepted (map to_int good) |}
                   bad rest).
        + simpl. rewrite <- app_assoc. reflexivity.
        + simpl. lia.
        + reflexivity.
        + exact Hbad.
      - simpl. subst q. apply reads_tokens.
      - exact Hgood. }
    split; [exact Hgood|].
    split; [rewrite writes_app, writes_accepted_all; apply app_nil_r|].
    right. exists bad. split; [exact Hq|]. split; [exact Hbad|].
    rewrite error_reports_app, error_reports_accepted_all. reflexivity.
Qed.

(** X10. A token out of range costs only itself: when a call of [loop]
    stops at it, the next call of [loop] takes up the input right behind
    it, so that after both calls the accepted angles before and behind it
    are all written, in order, with the one report in between. *)
Theorem loop_resumes_after_report
  {stream : Type} {port : SerialPort stream} {build : Build}
  (w : world stream) (before behind : list Z) (s1 s2 s3 : stream) (bad : Z)
  (fuel1 fuel2 : nat) :
  reads (serial_in w) before s1 ->
  Forall angle_ok (map to_int before) ->
  available s1 <> 0 ->
  parseInt s1 = (bad, s2) ->
  to_int bad < 0 \/ 180 < to_int bad ->
  reads s2 behind s3 ->
  Forall angle_ok (map to_int behind) ->
  available s3 = 0 ->
  (List.length before < fuel1)%nat ->
  (List.length behind < fuel2)%nat ->
  bind (loop fuel1) (fun _ => loop fuel2) w
  = (Some tt,
     {| serial_in := s3;
        log := log w ++ flat_map accepted (map to_int before)
               ++ out_of_range "angle" (to_int bad)
               ++ flat_map accepted (map to_int behind) |})
  /\ writes (flat_map accepted (map to_int before)
             ++ out_of_range "angle" (to_int bad)
             ++ flat_map accepted (map to_int behind))
     = map to_int before ++ map to_int behind.
Proof.
  intros Hbefore Hok1 Hav Hparse Hbad Hbehind Hok2 Hidle Hfuel1 Hfuel2.
  split.
  - set (w1 := {| serial_in := s2;
                  log := log w ++ flat_map accepted (map to_int before)
                         ++ out_of_range "angle" (to_int bad) |}).
    assert (Hfirst : userInputOperations fuel1 w = (Some tt, w1)).
    { replace fuel1 with (List.length before + S (fuel1 - S (List.length before)))%nat
        by lia.
      rewrite (userInputOperations_batch before _ w s1 Hbefore Hok1).
      rewrite (userInputOperations_reject _
                 {| serial_in := s1;
                    log := log w ++ flat_map accepted (map to_int before) |}
                 bad s2 Hav Hparse Hbad).
      unfold w1. simpl. rewrite <- app_assoc. reflexivity. }
    assert (Hsecond : userInputOperations fuel2 w1
                      = (Some tt, {| serial_in := s3;
                                     log := log w1
                                            ++ flat_map accepted (map to_int behind) |})).
    { replace fuel2 with (List.length behind + S (fuel2 - S (List.length behind)))%nat
        by lia.
      rewrite (userInputOperations_batch behind _ w1 s3 Hbehind Hok2).
      apply userInputOperations_idle. exact Hidle. }
    unfold bind, loop. rewrite Hfirst, Hsecond.
    unfold w1. simpl. rewrite <- !app_assoc. reflexivity.
  - rewrite !writes_app, !writes_accepted_all. reflexivity.
Qed.

(** ** The sweeping demonstration *)

Lemma bind_returned {stream : Type} {A B : Type}
  (m : io (stream := stream) A) (k : A -> io B) (w w1 : world stream) (a : A) :
  m w = (Some a, w1) -> bind m k w = k a w1.
Proof. intros Hm. unfold bind. rewrite Hm. reflexivity. Qed.

(** X1. [sweepOperations] returns once each of its sweeps has the fuel for
    181 angles.  Its four calls of [servoSweep] all pass the checks:
    nothing is reported, the servo is sent through 0..180, 180..0,
    45..135 in steps of 15 and 180..0 in steps of 45, 374 writes in all,
    with a pause of 5000 ms after each sweep; one pass spends 37430 ms in
    [delay]. *)
Theorem sweepOperations_log {stream : Type} {port : SerialPort stream} {build : Build}
  (fuel : nat) (w : world stream) :
  (181 < fuel)%nat ->
  let tr := sweep_log 0 180 1 15 ++ Delay 5000
            :: sweep_log 180 0 1 15 ++ Delay 5000
            :: sweep_log 45 135 15 1000 ++ Delay 5000
            :: sweep_log 180 0 45 1000 ++ [Delay 5000] in
  sweepOperations fuel w = (Some tt, logged w tr)
  /\ writes tr
     = map Z.of_nat (seq 0 181) ++ map (fun k => 180 - Z.of_nat k) (seq 0 181)
       ++ [45; 60; 75; 90; 105; 120; 135] ++ [180; 135; 90; 45; 0]
  /\ List.length (writes tr) = 374%nat
  /\ error_reports tr = []
  /\ total_delay tr = 37430.
Proof.
  cbv zeta. intros Hfuel.
  assert (Hrun : forall (a b s t : Z) (w0 : world stream),
            uint8 a -> uint8 b -> a <= 180 -> b <= 180 ->
            1 <= s <= Z.abs (b - a) -> (sweep_count a b s <= 181)%nat ->
            servoSweep fuel a b s t w0 = (Some tt, logged w0 (sweep_log a b s t))).
  { intros a b s t w0 Ha Hb Ha180 Hb180 Hs Hcount.
    apply servoSweep_valid_run; try assumption. lia. }
  assert (Hwrites :
    writes (sweep_log 0 180 1 15 ++ Delay 5000
            :: sweep_log 180 0 1 15 ++ Delay 5000
            :: sweep_log 45 135 15 1000 ++ Delay 5000
            :: sweep_log 180 0 45 1000 ++ [Delay 5000])
    = map Z.of_nat (seq 0 181) ++ map (fun k => 180 - Z.of_nat k) (seq 0 181)
      ++ [45; 60; 75; 90; 105; 120; 135] ++ [180; 135; 90; 45; 0]).
  { rewrite writes_app, writes_sweep_log. cbn [writes].
    rewrite writes_app, writes_sweep_log. cbn [writes].
    rewrite writes_app, writes_sweep_log. cbn [writes].
    rewrite writes_app, writes_sweep_log. cbn [writes].
    rewrite app_nil_r. reflexivity. }
  split.
  { unfold sweepOperations, delay.
    rewrite (bind_returned _ _ _ _ _ (Hrun 0 180 1 15 w
      ltac:(unfold uint8; lia) ltac:(unfold uint8; lia) ltac:(lia) ltac:(lia)
      ltac:(simpl; lia) ltac:(vm_compute; lia))).
    rewrite bind_emit, logged_app.
    rewrite (bind_returned _ _ _ _ _ (Hrun 180 0 1 15 _
      ltac:(unfold uint8; lia) ltac:(unfold uint8; lia) ltac:(lia) ltac:(lia)
      ltac:(simpl; lia) ltac:(vm_compute; lia))).
    rewrite bind_emit, !logged_app.
    rewrite (bind_returned _ _ _ _ _ (Hrun 45 135 15 1000 _
      ltac:(unfold uint8; lia) ltac:(unfold uint8; lia) ltac:(lia) ltac:(lia)
      ltac:(simpl; lia) ltac:(vm_compute; lia))).
    rewrite bind_emit, !logged_app.
    rewrite (bind_returned _ _ _ _ _ (Hrun 180 0 45 1000 _
      ltac:(unfold uint8; lia) ltac:(unfold uint8; lia) ltac:(lia) ltac:(lia)
      ltac:(simpl; lia) ltac:(vm_compute; lia))).
    unfold emit. rewrite !logged_app.
    repeat (rewrite <- app_assoc; cbn [app]). reflexivity. }
  split; [exact Hwrites|].
  split; [rewrite Hwrites; reflexivity|].
  split.
  { rewrite error_reports_app, error_reports_sweep_log. cbn [error_reports app].
    rewrite error_reports_app, error_reports_sweep_log. cbn [error_reports app].
    rewrite error_reports_app, error_reports_sweep_log. cbn [error_reports app].
    rewrite error_reports_app, error_reports_sweep_log. reflexivity. }
  unfold total_delay.
  rewrite delays_app, delays_sweep_log. cbn [delays].
  rewrite delays_app, delays_sweep_log. cbn [delays].
  rewrite delays_app, delays_sweep_log. cbn [delays].
  rewrite delays_app, delays_sweep_log. cbn [delays].
  vm_compute. reflexivity.
Qed.


(** ** The further properties at concrete calls *)

(** One pass of [sweepOperations] from power-on. *)
Lemma sweepOperations_log_witness :
  (181 < 182)%nat
  /\ List.length (writes (log (snd (sweepOperations (build := Uno) 182 (power_on [])))))
     = 374%nat.
Proof.
  assert (H1 : (181 < 182)%nat) by lia.
  split; [exact H1|].
  destruct (sweepOperations_log (build := Uno) 182 (power_on []) H1)
    as [Hrun [_ [Hlen _]]].
  rewrite Hrun. exact Hlen.
Defined.

(** [servoSweep(45, 135, 15, 1000)] returns. *)
Lemma servoSweep_returns_witness :
  uint8 45 /\ uint8 135 /\ (181 < 182)%nat
  /\ fst (servoSweep (build := Uno) 182 45 135 15 1000 (power_on [])) = Some tt.
Proof.
  assert (H1 : uint8 45) by (unfold uint8; lia).
  assert (H2 : uint8 135) by (unfold uint8; lia).
  assert (H3 : (181 < 182)%nat) by lia.
  split; [exact H1|]. split; [exact H2|]. split; [exact H3|].
  destruct (servoSweep_returns (build := Uno) 45 135 15 1000 182 (power_on [])
              H1 H2 H3) as [tr [Hrun _]].
  rewrite Hrun. reflexivity.
Defined.

(** [servoSweep(200, 250, 0, 15)]: three checks fail, the first is reported. *)
Lemma servoSweep_check_order_witness :
  uint8 200 /\ uint8 250
  /\ servoSweep (build := Uno) 1 200 250 0 15 (power_on [])
     = (Some tt, logged (power_on []) (out_of_range "startAngle" 200)).
Proof.
  assert (H1 : uint8 200) by (unfold uint8; lia).
  assert (H2 : uint8 250) by (unfold uint8; lia).
  split; [exact H1|]. split; [exact H2|].
  destruct (servoSweep_check_order (build := Uno) 200 250 0 15 1 (power_on []) H1 H2)
    as [Hstart _].
  apply Hstart. lia.
Defined.

(** [servoSweep(45, 135, 15, 1000)] ends on 135. *)
Lemma servoSweep_reaches_stop_witness :
  uint8 45 /\ uint8 135 /\ 45 <= 180 /\ 135 <= 180
  /\ 1 <= 15 <= Z.abs (135 - 45)
  /\ (sweep_count 45 135 15 < 8)%nat
  /\ Z.abs (135 - 45) mod 15 = 0
  /\ last (writes (sweep_log (build := Uno) 45 135 15 1000)) 0 = 135.
Proof.
  assert (H1 : uint8 45) by (unfold uint8; lia).
  assert (H2 : uint8 135) by (unfold uint8; lia).
  assert (H3 : 45 <= 180) by lia.
  assert (H4 : 135 <= 180) by lia.
  assert (H5 : 1 <= 15 <= Z.abs (135 - 45)) by (simpl; lia).
  assert (H6 : (sweep_count 45 135 15 < 8)%nat) by (vm_compute; lia).
  assert (H7 : Z.abs (135 - 45) mod 15 = 0) by reflexivity.
  split; [exact H1|]. split; [exact H2|]. split; [exact H3|]. split; [exact H4|].
  split; [exact H5|]. split; [exact H6|]. split; [exact H7|].
  destruct (servoSweep_reaches_stop (build := Uno) 45 135 15 1000 8 (power_on [])
              H1 H2 H3 H4 H5 H6) as [_ [_ Hlast]].
  exact (Hlast H7).
Defined.

(** From 45 to 135 in steps of 15, and back. *)
Lemma servoSweep_there_and_back_witness :
  uint8 45 /\ uint8 135 /\ 45 <= 180 /\ 135 <= 180
  /\ 1 <= 15 <= Z.abs (135 - 45)
  /\ Z.abs (135 - 45) mod 15 = 0
  /\ (sweep_count 45 135 15 < 8)%nat
  /\ writes (sweep_log (build := Uno) 135 45 15 1000)
     = rev (writes (sweep_log (build := Uno) 45 135 15 1000)).
Proof.
  assert (H1 : uint8 45) by (unfold uint8; lia).
  assert (H2 : uint8 135) by (unfold uint8; lia).
  assert (H3 : 45 <= 180) by lia.
  assert (H4 : 135 <= 180) by lia.
  assert (H5 : 1 <= 15 <= Z.abs (135 - 45)) by (simpl; lia).
  assert (H6 : Z.abs (135 - 45) mod 15 = 0) by reflexivity.
  assert (H7 : (sweep_count 45 135 15 < 8)%nat) by (vm_compute; lia).
  split; [exact H1|]. split; [exact H2|]. split; [exact H3|]. split; [exact H4|].
  split; [exact H5|]. split; [exact H6|]. split; [exact H7|].
  destruct (servoSweep_there_and_back (build := Uno) 45 135 15 1000 8
              (power_on []) (power_on []) H1 H2 H3 H4 H5 H6 H7) as [_ [_ Hrev]].
  exact Hrev.
Defined.

(** [servoSweep(45, 135, 15, 1000)] pauses for 7 seconds. *)
Lemma servoSweep_duration_witness :
  uint8 45 /\ uint8 135 /\ 45 <= 180 /\ 135 <= 180
  /\ 1 <= 15 <= Z.abs (135 - 45)
  /\ (sweep_count 45 135 15 < 8)%nat
  /\ total_delay (sweep_log (build := Uno) 45 135 15 1000)
     = 1000 * (Z.abs (135 - 45) / 15 + 1).
Proof.
  assert (H1 : uint8 45) by (unfold uint8; lia).
  assert (H2 : uint8 135) by (unfold uint8; lia).
  assert (H3 : 45 <= 180) by lia.
  assert (H4 : 135 <= 180) by lia.
  assert (H5 : 1 <= 15 <= Z.abs (135 - 45)) by (simpl; lia).
  assert (H6 : (sweep_count 45 135 15 < 8)%nat) by (vm_compute; lia).
  split; [exact H1|]. split; [exact H2|]. split; [exact H3|]. split; [exact H4|].
  split; [exact H5|]. split; [exact H6|].
  destruct (servoSweep_duration (build := Uno) 45 135 15 1000 8 (power_on [])
              H1 H2 H3 H4 H5 H6) as [_ [_ Htotal]].
  exact Htotal.
Defined.

(** [servoSweep(10, 0, 3, 1000)] starts on 10 and stays within 0..10. *)
Lemma servoSweep_within_end_points_witness :
  uint8 10 /\ uint8 0 /\ 10 <= 180 /\ 0 <= 180
  /\ 1 <= 3 <= Z.abs (0 - 10)
  /\ (sweep_count 10 0 3 < 5)%nat
  /\ hd_error (writes (sweep_log (build := Uno) 10 0 3 1000)) = Some 10.
Proof.
  assert (H1 : uint8 10) by (unfold uint8; lia).
  assert (H2 : uint8 0) by (unfold uint8; lia).
  assert (H3 : 10 <= 180) by lia.
  assert (H4 : 0 <= 180) by lia.
  assert (H5 : 1 <= 3 <= Z.abs (0 - 10)) by (simpl; lia).
  assert (H6 : (sweep_count 10 0 3 < 5)%nat) by (vm_compute; lia).
  split; [exact H1|]. split; [exact H2|]. split; [exact H3|]. split; [exact H4|].
  split; [exact H5|]. split; [exact H6|].
  destruct (servoSweep_within_end_points (build := Uno) 10 0 3 1000 5 (power_on [])
              H1 H2 H3 H4 H5 H6) as [_ [Hfirst _]].
  exact Hfirst.
Defined.

(** The queue 90, 200, 30: the handler returns. *)
Lemma userInputOperations_finite_queue_witness :
  (List.length [90; 200; 30] < 4)%nat
  /\ fst (userInputOperations (build := Uno) 4 (power_on [90; 200; 30])) = Some tt.
Proof.
  assert (H1 : (List.length [90; 200; 30] < 4)%nat) by (simpl; lia).
  split; [exact H1|].
  destruct (userInputOperations_finite_queue (build := Uno) [90; 200; 30] [] 4 H1)
    as [good [rest [tr [Hrun _]]]].
  unfold power_on. rewrite Hrun. reflexivity.
Defined.

(** The queue 90, 200, 30 over two calls of [loop]: 90 and 30 are written. *)
Lemma loop_resumes_after_report_witness :
  reads (serial_in (power_on [90; 200; 30])) [90] [200; 30]
  /\ Forall angle_ok (map (to_int (build := Uno)) [90])
  /\ available [200; 30] <> 0
  /\ parseInt [200; 30] = (200, [30])
  /\ (to_int (build := Uno) 200 < 0 \/ 180 < to_int (build := Uno) 200)
  /\ reads [30] [30] []
  /\ Forall angle_ok (map (to_int (build := Uno)) [30])
  /\ available ([] : token_queue) = 0
  /\ (List.length [90] < 2)%nat
  /\ (List.length [30] < 2)%nat
  /\ bind (loop (build := Uno) 2) (fun _ => loop (build := Uno) 2)
          (power_on [90; 200; 30])
     = (Some tt,
        {| serial_in := [];
           log := accepted (build := Uno) 90 ++ out_of_range "angle" 200
                  ++ accepted (build := Uno) 30 |}).
Proof.
  assert (H1 : reads (serial_in (power_on [90; 200; 30])) [90] [200; 30]).
  { apply (reads_cons _ [200; 30] [200; 30] 90 []); [simpl; lia|reflexivity|].
    apply reads_nil. }
  assert (H2 : Forall angle_ok (map (to_int (build := Uno)) [90])).
  { constructor; [split; vm_compute; discriminate|constructor]. }
  assert (H3 : available [200; 30] <> 0) by (simpl; lia).
  assert (H4 : parseInt [200; 30] = (200, [30])) by reflexivity.
  assert (H5 : to_int (build := Uno) 200 < 0 \/ 180 < to_int (build := Uno) 200)
    by (right; vm_compute; reflexivity).
  assert (H6 : reads [30] [30] []).
  { apply (reads_cons _ [] [] 30 []); [simpl; lia|reflexivity|]. apply reads_nil. }
  assert (H7 : Forall angle_ok (map (to_int (build := Uno)) [30])).
  { constructor; [split; vm_compute; discriminate|constructor]. }
  assert (H8 : available ([] : token_queue) = 0) by reflexivity.
  assert (H9 : (List.length [90] < 2)%nat) by (simpl; lia).
  assert (H10 : (List.length [30] < 2)%nat) by (simpl; lia).
  split; [exact H1|]. split; [exact H2|]. split; [exact H3|]. split; [exact H4|].
  split; [exact H5|]. split; [exact H6|]. split; [exact H7|]. split; [exact H8|].
  split; [exact H9|]. split; [exact H10|].
  destruct (loop_resumes_after_report (build := Uno) (power_on [90; 200; 30])
              [90] [30] [200; 30] [30] [] 200 2 2
              H1 H2 H3 H4 H5 H6 H7 H8 H9 H10) as [Hrun _].
  exact Hrun.
Defined.

